(** * Blur my Shell: the applications component

    A shallow embedding of [src/components/applications.js] (class
    [ApplicationsBlur]): the hint parser [parse_xprop], the offset
    calculator [compute_offset], the policy evaluator [check_blur] and
    the engine that keeps the two maps [window_map] and
    [blur_actor_map].

    Conventions of the embedding.
    - A JavaScript string is a [string]; every character is a code unit
      below 256, so the line terminators are LF and CR and the white
      space characters are TAB, LF, VT, FF, CR, SP and NBSP.
    - A JavaScript Number is a [number]: [NaN], an infinity, or [Num q]
      for the double nearest to the rational [q].  No operation of the
      component does arithmetic on brightness or sigma; they are parsed,
      compared with integers below 1000 and stored, so [q] is kept
      exact.
    - A method of the class is a function on the record [state] (the
      fields of [this] that the methods read and write, and the global
      [window_group]) and returns a [completion]: the state reached,
      normally or by an uncaught [TypeError].
    - What a method reads from the shell at the time of a call (the
      properties of a window, the token drawn by [Math.random], the
      windows of each workspace) is an argument of the function. *)

From Stdlib Require Import ZArith QArith Ascii String.
From stdpp Require Import gmap strings pretty.

Close Scope Q_scope.
Local Open Scope Z_scope.

(** ** Characters *)

Definition code (c : ascii) : N := N_of_ascii c.

Definition is_line_terminator (c : ascii) : bool :=
  (code c =? 10)%N || (code c =? 13)%N.

Definition is_white_space (c : ascii) : bool :=
  ((9 <=? code c)%N && (code c <=? 13)%N)
  || (code c =? 32)%N || (code c =? 160)%N.

Definition is_digit (c : ascii) : bool :=
  (48 <=? code c)%N && (code c <=? 57)%N.

(** The value of [c] as a digit in the given radix (10 or 16). *)
Definition digit_value (radix : Z) (c : ascii) : option Z :=
  let n := Z.of_N (code c) in
  let v :=
    if is_digit c then Some (n - 48)
    else if (97 <=? n) && (n <=? 122) then Some (n - 87)
    else if (65 <=? n) && (n <=? 90) then Some (n - 55)
    else None in
  match v with
  | Some d => if d <? radix then Some d else None
  | None => None
  end.

(** ** Strings *)

Fixpoint strip_prefix (p s : string) : option string :=
  match p, s with
  | EmptyString, _ => Some s
  | String a p', String b s' =>
      if Ascii.eqb a b then strip_prefix p' s' else None
  | String _ _, EmptyString => None
  end.

(** [String.prototype.includes]. *)
Fixpoint includes (s sub : string) : bool :=
  match strip_prefix sub s with
  | Some _ => true
  | None =>
      match s with
      | EmptyString => false
      | String _ s' => includes s' sub
      end
  end.

(** [Array.prototype.includes] on an array of strings. *)
Definition array_includes (l : list string) (x : string) : bool :=
  existsb (String.eqb x) l.

(** The part of [s] in front of its suffix [rest]. *)
Definition consumed (s rest : string) : string :=
  String.substring 0 (String.length s - String.length rest) s.

Fixpoint trim_start (s : string) : string :=
  match s with
  | String c s' => if is_white_space c then trim_start s' else s
  | EmptyString => EmptyString
  end.

(** ** Numbers *)

Inductive number :=
  | NaN
  | Infinity (negative : bool)
  | Num (q : Q).

Definition of_Z (z : Z) : number := Num (inject_Z z).

Definition isNaN (x : number) : bool :=
  match x with NaN => true | _ => false end.

(** [x === y] on Numbers. *)
Definition strict_eq (x y : number) : bool :=
  match x, y with
  | Num p, Num q => Qeq_bool p q
  | Infinity a, Infinity b => Bool.eqb a b
  | _, _ => false
  end.

(** [x <= y] on Numbers; any comparison with [NaN] is false. *)
Definition number_le (x y : number) : bool :=
  match x, y with
  | Num p, Num q => Qle_bool p q
  | Infinity true, (Num _ | Infinity _) => true
  | (Num _ | Infinity _), Infinity false => true
  | _, _ => false
  end.

Definition negate (x : number) : number :=
  match x with
  | NaN => NaN
  | Infinity b => Infinity (negb b)
  | Num q => Num (Qred (Qopp q))
  end.

(** The longest run of digits at the head of [s], read in the given
    radix onto the accumulator, and what follows it. *)
Fixpoint read_digits (radix : Z) (s : string) (acc : Z) : Z * string :=
  match s with
  | String c s' =>
      match digit_value radix c with
      | Some d => read_digits radix s' (acc * radix + d)
      | None => (acc, s)
      end
  | EmptyString => (acc, EmptyString)
  end.

Definition starts_with_digit (radix : Z) (s : string) : bool :=
  match s with
  | String c _ => bool_decide (is_Some (digit_value radix c))
  | EmptyString => false
  end.

(** A sign in front of [s]: whether it is a minus, and the rest. *)
Definition read_sign (s : string) : bool * string :=
  match s with
  | String "-" s' => (true, s')
  | String "+" s' => (false, s')
  | _ => (false, s)
  end.

(** [parseInt(s)] with no radix argument. *)
Definition parseInt (s : string) : number :=
  let '(negative, s1) := read_sign (trim_start s) in
  let '(radix, s2) :=
    match s1 with
    | String "0" (String "x" r) | String "0" (String "X" r) => (16, r)
    | _ => (10, s1)
    end in
  if starts_with_digit radix s2 then
    let n := fst (read_digits radix s2 0) in
    of_Z (if negative then - n else n)
  else NaN.

(** The exponent part of a decimal literal at the head of [s], zero
    when there is none. *)
Definition read_exponent (s : string) : Z :=
  match s with
  | String "e" s' | String "E" s' =>
      let '(negative, s2) := read_sign s' in
      if starts_with_digit 10 s2 then
        let e := fst (read_digits 10 s2 0) in
        if negative then - e else e
      else 0
  | _ => 0
  end.

Definition pow10 (e : Z) : Q :=
  if 0 <=? e then inject_Z (10 ^ e) else Qinv (inject_Z (10 ^ (- e))).

(** The value of the longest unsigned decimal literal at the head of
    [s]: digits, an optional fraction, an optional exponent; or a dot
    followed by at least one digit. *)
Definition read_decimal (s : string) : option Q :=
  let has_int := starts_with_digit 10 s in
  let '(int_part, s1) := read_digits 10 s 0 in
  match s1 with
  | String "." s2 =>
      if has_int || starts_with_digit 10 s2 then
        let '(mantissa, s3) := read_digits 10 s2 int_part in
        let scale := Z.of_nat (String.length s2 - String.length s3) in
        Some (Qred (Qmult (inject_Z mantissa)
                          (pow10 (read_exponent s3 - scale))))
      else None
  | _ =>
      if has_int then
        Some (Qred (Qmult (inject_Z int_part) (pow10 (read_exponent s1))))
      else None
  end.

(** [parseFloat(s)]. *)
Definition parseFloat (s : string) : number :=
  let '(negative, s1) := read_sign (trim_start s) in
  let unsigned :=
    match strip_prefix "Infinity" s1 with
    | Some _ => Infinity false
    | None =>
        match read_decimal s1 with
        | Some q => Num q
        | None => NaN
        end
    end in
  if negative then negate unsigned else unsigned.

(** ** Regular expressions

    The fragment of the pattern language that the three patterns of
    [parse_xprop] are written in, with the matching order of a
    backtracking matcher: alternatives left to right, quantifiers
    greedy, the leftmost start first. *)

Inductive atom :=
  | Char (c : ascii)
  | AnyChar
  | DigitClass.

Inductive regex :=
  | Text (s : string)
  | Atom (a : atom)
  | Quant (a : atom) (min : nat) (max : option nat)
  | Cat (r1 r2 : regex)
  | Alt (r1 r2 : regex)
  | Group (i : nat) (r : regex).

Definition atom_matches (a : atom) (c : ascii) : bool :=
  match a with
  | Char d => Ascii.eqb d c
  | AnyChar => negb (is_line_terminator c)
  | DigitClass => is_digit c
  end.

Definition or_else {A} (x y : option A) : option A :=
  match x with Some _ => x | None => y end.

(** A greedy quantifier: one more repetition where it is allowed and
    the rest of the pattern then matches, otherwise stop here. *)
Fixpoint repeat_atom {A} (a : atom) (min : nat) (max : option nat)
    (s : string) (k : string → option A) : option A :=
  let stop := match min with O => k s | S _ => None end in
  match max, s with
  | Some O, _ => stop
  | _, String c s' =>
      if atom_matches a c
      then or_else (repeat_atom a (pred min) (pred <$> max) s' k) stop
      else stop
  | _, EmptyString => stop
  end.

Fixpoint rmatch {A} (r : regex) (s : string) (caps : gmap nat string)
    (k : string → gmap nat string → option A) : option A :=
  match r with
  | Text t =>
      match strip_prefix t s with
      | Some s' => k s' caps
      | None => None
      end
  | Atom a =>
      match s with
      | String c s' => if atom_matches a c then k s' caps else None
      | EmptyString => None
      end
  | Quant a min max => repeat_atom a min max s (λ s', k s' caps)
  | Cat r1 r2 => rmatch r1 s caps (λ s' caps', rmatch r2 s' caps' k)
  | Alt r1 r2 => or_else (rmatch r1 s caps k) (rmatch r2 s caps k)
  | Group i r =>
      rmatch r s caps (λ s' caps', k s' (<[i := consumed s s']> caps'))
  end.

(** The continuation of [string_match]: the match array of a match of
    [s] that leaves [s']. *)
Definition match_array (s s' : string) (caps : gmap nat string)
    : option (gmap nat string) :=
  Some (<[O := consumed s s']> caps).

(** [s.match(r)] for a pattern without flags: the match array of the
    leftmost match (index 0 the matched text, index i the i-th group),
    or [None] for [null]. *)
Fixpoint string_match (r : regex) (s : string) : option (gmap nat string) :=
  match rmatch r s ∅ (match_array s) with
  | Some m => Some m
  | None =>
      match s with
      | String _ s' => string_match r s'
      | EmptyString => None
      end
  end.

Definition opt (a : atom) : regex := Quant a 0 (Some 1%nat).
Definition star (a : atom) : regex := Quant a 0 None.

(** The pattern of [arg]: the marker [blur-provider=], then group 1,
    any characters up to the end of the line. *)
Definition re_argument : regex :=
  Cat (Text "blur-provider=") (Group 1 (star AnyChar)).

(** The pattern of [res_b]: group 1 is [brightness] or [b], a colon,
    group 2 is [default] or an optional 0, an optional 1, one character
    and digits.  The source writes that character as backslash-dot
    inside a string literal, which denotes the string with a plain dot:
    the compiled pattern has the wildcard there. *)
Definition re_brightness : regex :=
  Cat (Group 1 (Alt (Text "brightness") (Text "b")))
 (Cat (Text ":")
      (Group 2 (Alt (Text "default")
                    (Cat (opt (Char "0"))
                    (Cat (opt (Char "1"))
                    (Cat (Atom AnyChar)
                         (star DigitClass))))))).

(** The pattern of [res_s]: group 1 is [sigma] or [s], a colon, group 2
    is [default] or one to three digits. *)
Definition re_sigma : regex :=
  Cat (Group 1 (Alt (Text "sigma") (Text "s")))
 (Cat (Text ":")
      (Group 2 (Alt (Text "default") (Quant DigitClass 1 (Some 3%nat))))).

(** [m[i]] of a match array, read as a string: a group that took no
    part in the match is [undefined]. *)
Definition group (m : gmap nat string) (i : nat) : string :=
  default "undefined" (m !! i).

(** ** Preferences *)

(** [prefs.applications] *)
Record applications_prefs := {
  ENABLE_ALL : bool;
  WHITELIST : list string;
  BLACKLIST : list string;
  CUSTOMIZE : bool;
  applications_BRIGHTNESS : number;
  applications_SIGMA : number;
}.

(** [prefs] *)
Record Prefs := {
  applications : applications_prefs;
  BRIGHTNESS : number;
  SIGMA : number;
  HACKS_LEVEL : Z;
  DEBUG : bool;
}.

(** ** Windows and actors *)

Module Rect.
Record t := { x : Z; y : Z; width : Z; height : Z }.
End Rect.

(** A window actor, as far as the component reads it. *)
Record WindowActor := { visible : bool }.

(** What the methods read off a [Meta.Window] at the time of a call.
    The object itself is stood for by [window_id]. *)
Record MetaWindow := {
  window_id : nat;
  get_wm_class : option string;
  get_mutter_hints : option string;
  get_frame_rect : Rect.t;
  get_buffer_rect : Rect.t;
  get_compositor_private : option WindowActor;
}.

(** A blur actor with its two bind constraints and its blur effect. *)
Record BlurActor := {
  actor_x : Z;
  actor_y : Z;
  width_offset : Z;
  height_offset : Z;
  effect_sigma : number;
  effect_brightness : number;
  shown : bool;
  blur_provider_pid : string;
}.

(** ** The state

    The fields of [this] and the global [window_group], of which only
    whether it is null is read.  The scene graph, the signal
    connections, the paint signals and the log belong to the shell. *)
Record state := {
  prefs : Prefs;
  window_map : gmap string nat;
  blur_actor_map : gmap string BlurActor;
  window_group : option unit;
}.

Definition set_maps (st : state) (wm : gmap string nat)
    (bm : gmap string BlurActor) : state :=
  {| prefs := prefs st; window_map := wm; blur_actor_map := bm;
     window_group := window_group st |}.

Arguments set_maps _ _ _ /.

(** How a call ends: normally, or by an uncaught [TypeError]; either
    way with the state it has reached. *)
Inductive completion :=
  | Normal (st : state)
  | Throw (st : state).

Definition and_then (c : completion) (f : state → completion) : completion :=
  match c with
  | Normal st => f st
  | Throw st => Throw st
  end.

Definition final (c : completion) : state :=
  match c with Normal st | Throw st => st end.

Definition has {V} (m : gmap string V) (pid : string) : bool :=
  bool_decide (is_Some (m !! pid)).

(** ** The methods of [ApplicationsBlur] *)

Definition parse_xprop (p : Prefs) (property : string) : number * number :=
  let '(brightness, sigma) :=
    if CUSTOMIZE (applications p)
    then (applications_BRIGHTNESS (applications p),
          applications_SIGMA (applications p))
    else (BRIGHTNESS p, SIGMA p) in
  match string_match re_argument property with
  | Some arg =>
      let maybe_sigma := parseInt (group arg 1) in
      if negb (isNaN maybe_sigma)
         && number_le (of_Z 0) maybe_sigma && number_le maybe_sigma (of_Z 999)
      then (brightness, maybe_sigma)
      else
        let res_b := string_match re_brightness (group arg 1) in
        let res_s := string_match re_sigma (group arg 1) in
        let brightness :=
          match res_b with
          | Some m =>
              if negb (String.eqb (group m 2) "default")
              then parseFloat (group m 2) else brightness
          | None => brightness
          end in
        let sigma :=
          match res_s with
          | Some m =>
              if negb (String.eqb (group m 2) "default")
              then parseInt (group m 2) else sigma
          | None => sigma
          end in
        (brightness, sigma)
  | None => (brightness, sigma)
  end.

Definition compute_offset (meta_window : MetaWindow) : Rect.t :=
  let frame := get_frame_rect meta_window in
  let buffer := get_buffer_rect meta_window in
  {| Rect.x := Rect.x frame - Rect.x buffer;
     Rect.y := Rect.y frame - Rect.y buffer;
     Rect.width := Rect.width frame - Rect.width buffer;
     Rect.height := Rect.height frame - Rect.height buffer |}.

(** The actor that [create_blur_actor] builds and [create_blur_effect]
    then registers under [pid]. *)
Definition create_blur_actor (pid : string) (meta_window : MetaWindow)
    (window_actor : WindowActor) (brightness sigma : number) : BlurActor :=
  let offset := compute_offset meta_window in
  {| actor_x := Rect.x offset;
     actor_y := Rect.y offset;
     width_offset := Rect.width offset;
     height_offset := Rect.height offset;
     effect_sigma := sigma;
     effect_brightness := brightness;
     shown := visible window_actor;
     blur_provider_pid := pid |}.

Definition update_blur_effect (blur_actor : BlurActor)
    (brightness sigma : number) : BlurActor :=
  {| actor_x := actor_x blur_actor;
     actor_y := actor_y blur_actor;
     width_offset := width_offset blur_actor;
     height_offset := height_offset blur_actor;
     effect_sigma := sigma;
     effect_brightness := brightness;
     shown := shown blur_actor;
     blur_provider_pid := blur_provider_pid blur_actor |}.

(** With no window actor, [window_actor.insert_child_at_index] throws
    before either map is written. *)
Definition create_blur_effect (pid : string)
    (window_actor : option WindowActor) (meta_window : MetaWindow)
    (brightness sigma : number) (st : state) : completion :=
  match window_actor with
  | None => Throw st
  | Some actor =>
      let blur_actor :=
        create_blur_actor pid meta_window actor brightness sigma in
      Normal (set_maps st
                (<[pid := window_id meta_window]> (window_map st))
                (<[pid := blur_actor]> (blur_actor_map st)))
  end.

Definition remove_blur (pid : string) (st : state) : completion :=
  match window_group st with
  | None => Normal st
  | Some _ =>
      match window_map st !! pid with
      | Some meta_window =>
          let wm := delete pid (window_map st) in
          match blur_actor_map st !! pid with
          | Some blur_actor =>
              Normal (set_maps st wm (delete pid (blur_actor_map st)))
          | None => Normal (set_maps st wm (blur_actor_map st))
          end
      | None => Normal st
      end
  end.

Definition update_blur (pid : string) (window_actor : option WindowActor)
    (meta_window : MetaWindow) (brightness sigma : number)
    (st : state) : completion :=
  match blur_actor_map st !! pid with
  | Some blur_actor =>
      if strict_eq sigma (of_Z 0) then remove_blur pid st
      else
        Normal (set_maps st (window_map st)
                  (<[pid := update_blur_effect blur_actor brightness sigma]>
                     (blur_actor_map st)))
  | None =>
      if negb (strict_eq sigma (of_Z 0))
      then create_blur_effect pid window_actor meta_window brightness sigma st
      else Normal st
  end.

(** [window_wm_class !== ""]: a window without class has [null]. *)
Definition not_empty (window_wm_class : option string) : bool :=
  match window_wm_class with
  | Some c => negb (String.eqb c "")
  | None => true
  end.

Definition list_includes (l : list string)
    (window_wm_class : option string) : bool :=
  match window_wm_class with
  | Some c => array_includes l c
  | None => false
  end.

Definition check_blur (pid : string) (window_actor : option WindowActor)
    (meta_window : MetaWindow) (st : state) : completion :=
  let mutter_hint := get_mutter_hints meta_window in
  let window_wm_class := get_wm_class meta_window in
  let enable_all := ENABLE_ALL (applications (prefs st)) in
  let whitelist := WHITELIST (applications (prefs st)) in
  let blacklist := BLACKLIST (applications (prefs st)) in
  if not_empty window_wm_class
     && ((enable_all && negb (list_includes blacklist window_wm_class))
         || (negb enable_all && list_includes whitelist window_wm_class))
  then
    let '(brightness, sigma) :=
      if CUSTOMIZE (applications (prefs st))
      then (applications_BRIGHTNESS (applications (prefs st)),
            applications_SIGMA (applications (prefs st)))
      else (BRIGHTNESS (prefs st), SIGMA (prefs st)) in
    update_blur pid window_actor meta_window brightness sigma st
  else
    match mutter_hint with
    | Some hint =>
        if includes hint "blur-provider" then
          let '(brightness, sigma) := parse_xprop (prefs st) hint in
          update_blur pid window_actor meta_window brightness sigma st
        else if has (blur_actor_map st) pid then remove_blur pid st
        else Normal st
    | None =>
        if has (blur_actor_map st) pid then remove_blur pid st
        else Normal st
    end.

(** [pid] is the token drawn from [Math.random].  With no window actor,
    writing its [blur_provider_pid] throws. *)
Definition track_new (pid : string) (window_actor : option WindowActor)
    (meta_window : MetaWindow) (st : state) : completion :=
  match window_actor with
  | None => Throw st
  | Some _ => check_blur pid window_actor meta_window st
  end.

(** The [destroy] handler of a window actor whose [blur_provider_pid]
    is [pid]. *)
Definition on_destroy (pid : string) (st : state) : completion :=
  and_then
    (if has (blur_actor_map st) pid then remove_blur pid st else Normal st)
    (λ st', Normal (set_maps st' (delete pid (window_map st'))
                      (blur_actor_map st'))).

(** The [notify::mutter-hints] and [notify::wm-class] handlers of a
    window whose [blur_provider_pid] is [pid]. *)
Definition on_notify (pid : string) (meta_window : MetaWindow)
    (st : state) : completion :=
  check_blur pid (get_compositor_private meta_window) meta_window st.

(** The [size-changed] handler that [track_new] connected for [pid]. *)
Definition on_size_changed (pid : string) (meta_window : MetaWindow)
    (st : state) : completion :=
  match blur_actor_map st !! pid with
  | Some blur_actor =>
      let offset := compute_offset meta_window in
      Normal (set_maps st (window_map st)
        (<[pid := {| actor_x := Rect.x offset;
                     actor_y := Rect.y offset;
                     width_offset := Rect.width offset;
                     height_offset := Rect.height offset;
                     effect_sigma := effect_sigma blur_actor;
                     effect_brightness := effect_brightness blur_actor;
                     shown := shown blur_actor;
                     blur_provider_pid := blur_provider_pid blur_actor |}]>
           (blur_actor_map st)))
  | None => Normal st
  end.

(** The [notify::visible] handler of a window actor whose
    [blur_provider_pid] is [pid]: [show] or [hide] on what
    [blur_actor_map.get(pid)] returns, a [TypeError] on [undefined]. *)
Definition on_notify_visible (pid : string) (window_actor : WindowActor)
    (st : state) : completion :=
  match blur_actor_map st !! pid with
  | Some blur_actor =>
      Normal (set_maps st (window_map st)
        (<[pid := {| actor_x := actor_x blur_actor;
                     actor_y := actor_y blur_actor;
                     width_offset := width_offset blur_actor;
                     height_offset := height_offset blur_actor;
                     effect_sigma := effect_sigma blur_actor;
                     effect_brightness := effect_brightness blur_actor;
                     shown := visible window_actor;
                     blur_provider_pid := blur_provider_pid blur_actor |}]>
           (blur_actor_map st)))
  | None => Throw st
  end.

(** [map.forEach((_, pid) => this.remove_blur(pid))]: [remove_blur]
    deletes no key but the one it is called on, so each key the map has
    when the loop starts is visited once. *)
Definition remove_each {V} (m : gmap string V) (st : state) : completion :=
  map_fold (λ pid _ c, and_then c (remove_blur pid)) (Normal st) m.

(** One workspace of the rescan: its windows in order, each with the
    token drawn for it. *)
Fixpoint track_windows (windows : list (MetaWindow * string))
    (st : state) : completion :=
  match windows with
  | [] => Normal st
  | (meta_window, pid) :: rest =>
      and_then
        (track_new pid (get_compositor_private meta_window) meta_window st)
        (track_windows rest)
  end.

Fixpoint track_workspaces (workspaces : list (list (MetaWindow * string)))
    (st : state) : completion :=
  match workspaces with
  | [] => Normal st
  | windows :: rest =>
      and_then (track_windows windows st) (track_workspaces rest)
  end.

Definition update_all_windows
    (workspaces : list (list (MetaWindow * string)))
    (st : state) : completion :=
  and_then (remove_each (window_map st) st) (track_workspaces workspaces).

Definition disable (st : state) : completion :=
  remove_each (blur_actor_map st) st.

Definition set_effect_sigma (s : number) (blur_actor : BlurActor) : BlurActor :=
  update_blur_effect blur_actor (effect_brightness blur_actor) s.

Definition set_effect_brightness (b : number) (blur_actor : BlurActor)
    : BlurActor :=
  update_blur_effect blur_actor b (effect_sigma blur_actor).

Definition set_sigma (s : number) (st : state) : completion :=
  Normal (set_maps st (window_map st)
            (set_effect_sigma s <$> blur_actor_map st)).

Definition set_brightness (b : number) (st : state) : completion :=
  Normal (set_maps st (window_map st)
            (set_effect_brightness b <$> blur_actor_map st)).

(** [enable] blurs the windows that exist and connects
    [on_window_created]. *)
Definition enable (workspaces : list (list (MetaWindow * string)))
    (st : state) : completion :=
  update_all_windows workspaces st.

(** The [window-created] handler of the display. *)
Definition on_window_created (meta_window : option MetaWindow)
    (pid : string) (st : state) : completion :=
  match meta_window with
  | Some w => track_new pid (get_compositor_private w) w st
  | None => Normal st
  end.

(** ** Events

    What reaches the component between two points of rest: a signal
    that runs one of its handlers, a call of one of its methods from
    the extension, or a change of what it reads from the shell. *)
Inductive event :=
  | WindowCreated (meta_window : option MetaWindow) (pid : string)
  | Destroy (pid : string)
  | Notify (pid : string) (meta_window : MetaWindow)
  | SizeChanged (pid : string) (meta_window : MetaWindow)
  | NotifyVisible (pid : string) (window_actor : WindowActor)
  | UpdateAllWindows (workspaces : list (list (MetaWindow * string)))
  | SetSigma (s : number)
  | SetBrightness (b : number)
  | Disable
  | WindowGroup (g : option unit)
  | SetPrefs (p : Prefs).

Definition handle (e : event) (st : state) : completion :=
  match e with
  | WindowCreated meta_window pid => on_window_created meta_window pid st
  | Destroy pid => on_destroy pid st
  | Notify pid meta_window => on_notify pid meta_window st
  | SizeChanged pid meta_window => on_size_changed pid meta_window st
  | NotifyVisible pid window_actor => on_notify_visible pid window_actor st
  | UpdateAllWindows workspaces => update_all_windows workspaces st
  | SetSigma s => set_sigma s st
  | SetBrightness b => set_brightness b st
  | Disable => disable st
  | WindowGroup g =>
      Normal {| prefs := prefs st; window_map := window_map st;
                blur_actor_map := blur_actor_map st; window_group := g |}
  | SetPrefs p =>
      Normal {| prefs := p; window_map := window_map st;
                blur_actor_map := blur_actor_map st;
                window_group := window_group st |}
  end.

(** The state after a sequence of events; an error thrown by a handler
    ends that handler only. *)
Fixpoint run (events : list event) (st : state) : state :=
  match events with
  | [] => st
  | e :: rest => run rest (final (handle e st))
  end.

(** The state that the constructor leaves. *)
Definition init (p : Prefs) (g : option unit) : state :=
  {| prefs := p; window_map := ∅; blur_actor_map := ∅; window_group := g |}.

(** ** Notions that the statements use *)

(** *** On hints *)

(** The default pair that [check_blur] and [parse_xprop] select. *)
Definition fallback (p : Prefs) : number * number :=
  if CUSTOMIZE (applications p)
  then (applications_BRIGHTNESS (applications p),
        applications_SIGMA (applications p))
  else (BRIGHTNESS p, SIGMA p).

(** The characters of [s] in front of its first line terminator, and
    what is left of [s] from there on. *)
Fixpoint first_line (s : string) : string :=
  match s with
  | String c s' =>
      if is_line_terminator c then EmptyString else String c (first_line s')
  | EmptyString => EmptyString
  end.

Fixpoint rest_of_line (s : string) : string :=
  match s with
  | String c s' => if is_line_terminator c then s else rest_of_line s'
  | EmptyString => EmptyString
  end.

(** The text after the marker: what follows the first [blur-provider=]
    of [s] on its line, if [s] has the marker. *)
Fixpoint after_marker (s : string) : option string :=
  match strip_prefix "blur-provider=" s with
  | Some rest => Some (first_line rest)
  | None =>
      match s with
      | String _ s' => after_marker s'
      | EmptyString => None
      end
  end.

#[global] Instance Q_eq_dec : EqDecision Q.
Proof. solve_decision. Defined.

#[global] Instance number_eq_dec : EqDecision number.
Proof. solve_decision. Defined.

(** Whether the hint [blur-provider=n], with [n] written in decimal, is
    read as the shorthand for sigma [n]. *)
Definition shorthand_read (n : Z) : bool :=
  bool_decide (after_marker ("blur-provider=" +:+ pretty n) = Some (pretty n))
  && bool_decide (parseInt (pretty n) = of_Z n).

(** *** On the policy *)

(** The decision that [check_blur] takes for a window: the condition of
    its first branch, the condition of its second branch, and the
    values that the branch taken hands to [update_blur]. *)
Inductive decision :=
  | Enabled (brightness sigma : number)
  | Disabled.

Definition listed (p : Prefs) (meta_window : MetaWindow) : bool :=
  let c := get_wm_class meta_window in
  not_empty c
  && ((ENABLE_ALL (applications p)
       && negb (list_includes (BLACKLIST (applications p)) c))
      || (negb (ENABLE_ALL (applications p))
          && list_includes (WHITELIST (applications p)) c)).

Definition hinted (meta_window : MetaWindow) : bool :=
  match get_mutter_hints meta_window with
  | Some hint => includes hint "blur-provider"
  | None => false
  end.

Definition policy (p : Prefs) (meta_window : MetaWindow) : decision :=
  if listed p meta_window then
    Enabled (fst (fallback p)) (snd (fallback p))
  else
    match get_mutter_hints meta_window with
    | Some hint =>
        if includes hint "blur-provider"
        then Enabled (fst (parse_xprop p hint)) (snd (parse_xprop p hint))
        else Disabled
    | None => Disabled
    end.

(** The decision is to blur: enabled with a sigma other than 0. *)
Definition blurs (d : decision) : bool :=
  match d with
  | Enabled _ sigma => negb (strict_eq sigma (of_Z 0))
  | Disabled => false
  end.

(** *** On the two maps *)

(** [pid] is a key of the binding map; of the window map; of neither. *)
Definition bound (pid : string) (st : state) : Prop :=
  pid ∈ dom (blur_actor_map st).

Definition tracked (pid : string) (st : state) : Prop :=
  pid ∈ dom (window_map st).

Definition absent (pid : string) (st : state) : Prop :=
  window_map st !! pid = None ∧ blur_actor_map st !! pid = None.

(** Every binding has an entry in the window map. *)
Definition bindings_tracked (st : state) : Prop :=
  dom (blur_actor_map st) ⊆ dom (window_map st).

(** Every entry of the window map has its binding. *)
Definition windows_bound (st : state) : Prop :=
  dom (window_map st) ⊆ dom (blur_actor_map st).

(** [st'] differs from [st] at most in what the two maps hold for
    [pid]. *)
Definition agree_except (pid : string) (st st' : state) : Prop :=
  prefs st' = prefs st
  ∧ window_group st' = window_group st
  ∧ ∀ q, q ≠ pid →
      window_map st' !! q = window_map st !! q
      ∧ blur_actor_map st' !! q = blur_actor_map st !! q.

(** Whether [remove_each m] takes [k] out of the maps of [st]. *)
Definition removed {V} (m : gmap string V) (st : state) (k : string) : bool :=
  bool_decide (is_Some (window_group st) ∧ is_Some (m !! k)
               ∧ is_Some (window_map st !! k)).

(** *** On events *)

(** The tokens drawn in a rescan. *)
Definition tokens (workspaces : list (list (MetaWindow * string)))
    : list string :=
  (concat workspaces).*2.

(** The events after which [pid] may be bound where it was not, or the
    reverse: a policy evaluation or a destruction for [pid], a rescan,
    and [disable]. *)
Definition decides (pid : string) (e : event) : Prop :=
  match e with
  | WindowCreated _ q | Destroy q | Notify q _ => q = pid
  | UpdateAllWindows _ | Disable => True
  | _ => False
  end.

(** The events that may enter [pid] into a map: a policy evaluation for
    [pid], and a rescan that draws [pid]. *)
Definition draws (pid : string) (e : event) : Prop :=
  match e with
  | WindowCreated _ q | Notify q _ => q = pid
  | UpdateAllWindows workspaces => pid ∈ tokens workspaces
  | _ => False
  end.

(** ** Notions of the further properties *)

(** Every character of [s] is matched by the atom [a]. *)
Fixpoint all_match (a : atom) (s : string) : bool :=
  match s with
  | String c s' => atom_matches a c && all_match a s'
  | EmptyString => true
  end.

(** [x] is an integer from 0 to 999. *)
Definition sigma_in_range (x : number) : bool :=
  match x with
  | Num q => (Qden q =? 1)%positive && (0 <=? Qnum q) && (Qnum q <=? 999)
  | _ => false
  end.

(** The ten digits, and the strings of [n] digits. *)
Definition digit_chars : list ascii :=
  ["0"; "1"; "2"; "3"; "4"; "5"; "6"; "7"; "8"; "9"]%char.

Fixpoint digit_strings (n : nat) : list string :=
  match n with
  | O => [EmptyString]
  | S n' => c ← digit_chars; t ← digit_strings n'; [String c t]
  end.

(** The token that the handler of an event runs for. *)
Definition token_of (e : event) : option string :=
  match e with
  | WindowCreated _ q | Destroy q | Notify q _ | SizeChanged q _
  | NotifyVisible q _ => Some q
  | _ => None
  end.

(** The binding that a policy evaluation creates for an unbound token:
    the actor built for the decision, or none when the decision is not
    to blur. *)
Definition new_binding (p : Prefs) (pid : string) (meta_window : MetaWindow)
    (window_actor : WindowActor) : option BlurActor :=
  match policy p meta_window with
  | Enabled b s =>
      if strict_eq s (of_Z 0) then None
      else Some (create_blur_actor pid meta_window window_actor b s)
  | Disabled => None
  end.

(** Position and constraint offsets of a blur actor; the two parameters
    of its effect. *)
Definition geometry (a : BlurActor) : Rect.t :=
  {| Rect.x := actor_x a; Rect.y := actor_y a;
     Rect.width := width_offset a; Rect.height := height_offset a |}.

Definition parameters (a : BlurActor) : number * number :=
  (effect_brightness a, effect_sigma a).

(** Every blur actor carries the token it is registered under. *)
Definition keys_match (st : state) : Prop :=
  ∀ k a, blur_actor_map st !! k = Some a → blur_provider_pid a = k.

(** ** Sample preferences, windows and states *)

(** Preferences with the global pair (0.9, 40) and no customization. *)
Definition global_prefs (enable_all : bool) (whitelist blacklist : list string)
    : Prefs :=
  {| applications :=
       {| ENABLE_ALL := enable_all; WHITELIST := whitelist;
          BLACKLIST := blacklist; CUSTOMIZE := false;
          applications_BRIGHTNESS := Num (1 # 2);
          applications_SIGMA := of_Z 30 |};
     BRIGHTNESS := Num (9 # 10); SIGMA := of_Z 40;
     HACKS_LEVEL := 0; DEBUG := false |}.

(** A window with the given identity, class and hints, with a visible
    actor, the frame (10, 10, 100, 50) and the buffer (0, 0, 120, 70). *)
Definition window (id : nat) (class hints : option string) : MetaWindow :=
  {| window_id := id;
     get_wm_class := class;
     get_mutter_hints := hints;
     get_frame_rect := Rect.Build_t 10 10 100 50;
     get_buffer_rect := Rect.Build_t 0 0 120 70;
     get_compositor_private := Some {| visible := true |} |}.

(** A window of class [Foo] that has no actor. *)
Definition window_without_actor : MetaWindow :=
  {| window_id := 7;
     get_wm_class := Some "Foo";
     get_mutter_hints := None;
     get_frame_rect := Rect.Build_t 0 0 1 1;
     get_buffer_rect := Rect.Build_t 0 0 1 1;
     get_compositor_private := None |}.

(** A window of class [Foo] with the given hint. *)
Definition hint_window (hint : string) : MetaWindow :=
  window 1 (Some "Foo") (Some hint).

(** No class is listed; the window of hint [blur-provider=60] has been
    created and is blurred under the token 1. *)
Definition blurred : state :=
  run [WindowCreated (Some (hint_window "blur-provider=60")) "1"]
    (init (global_prefs false [] []) (Some ())).

(** [blurred], then the window group has become null. *)
Definition shutting_down : state := run [WindowGroup None] blurred.

(** [shutting_down], then the window is destroyed and the window group
    is there again: the token 1 is bound without an entry in the window
    map. *)
Definition orphaned : state :=
  run [Destroy "1"; WindowGroup (Some ())] shutting_down.

(** * The hint parser *)

Section Parser.

Implicit Types (s t : string) (p : Prefs).

Lemma string_match_unfold r s :
  string_match r s =
    match rmatch r s ∅ (match_array s) with
    | Some m => Some m
    | None =>
        match s with
        | String _ s' => string_match r s'
        | EmptyString => None
        end
    end.
Proof. by destruct s. Qed.

Lemma after_marker_unfold s :
  after_marker s =
    match strip_prefix "blur-provider=" s with
    | Some rest => Some (first_line rest)
    | None =>
        match s with
        | String _ s' => after_marker s'
        | EmptyString => None
        end
    end.
Proof. by destruct s. Qed.

Lemma includes_unfold s t :
  includes s t =
    match strip_prefix t s with
    | Some _ => true
    | None =>
        match s with
        | String _ s' => includes s' t
        | EmptyString => false
        end
    end.
Proof. by destruct s. Qed.

Lemma rest_of_line_length s :
  (String.length (rest_of_line s) ≤ String.length s)%nat.
Proof.
  induction s as [|c s IH]; simpl; [lia|].
  destruct (is_line_terminator c); simpl; lia.
Qed.

Lemma consumed_line s : consumed s (rest_of_line s) = first_line s.
Proof.
  unfold consumed. induction s as [|c s IH]; [done|].
  cbn [rest_of_line first_line].
  destruct (is_line_terminator c) eqn:Hc.
  - by rewrite Nat.sub_diag.
  - pose proof (rest_of_line_length s) as Hlen.
    cbn [String.length].
    replace (S (String.length s) - String.length (rest_of_line s))%nat
      with (S (String.length s - String.length (rest_of_line s))) by lia.
    cbn [String.substring]. by rewrite IH.
Qed.

(** A greedy star of the wildcard in front of a continuation that accepts anything
    runs to the end of the line. *)
Lemma repeat_any_line {A} (k : string → option A) s :
  (∀ s', is_Some (k s')) →
  repeat_atom AnyChar 0 None s k = k (rest_of_line s).
Proof.
  intros Hk. induction s as [|c s IH]; [done|]. simpl.
  destruct (is_line_terminator c); simpl; [done|].
  rewrite IH. by destruct (Hk (rest_of_line s)) as [x ->].
Qed.

Lemma rmatch_argument s :
  rmatch re_argument s ∅ (match_array s) =
    match strip_prefix "blur-provider=" s with
    | Some rest =>
        Some (<[O := consumed s (rest_of_line rest)]>
                (<[1%nat := first_line rest]> ∅))
    | None => None
    end.
Proof.
  unfold re_argument, star. cbn [rmatch].
  destruct (strip_prefix _ s) as [rest|]; [|done].
  rewrite repeat_any_line by (intros; by eexists).
  unfold match_array. by rewrite consumed_line.
Qed.

(** Group 1 of the match of the argument pattern is the text after the
    marker; there is no match exactly when there is no marker. *)
Lemma string_match_argument s :
  (λ m, group m 1) <$> string_match re_argument s = after_marker s.
Proof.
  induction s as [|c s IH];
    rewrite string_match_unfold, after_marker_unfold, rmatch_argument.
  - done.
  - destruct (strip_prefix _ (String c s)) as [rest|]; [|done].
    simpl. unfold group. by rewrite lookup_insert_ne, lookup_insert_eq.
Qed.

Lemma after_marker_includes s :
  after_marker s = None ↔ includes s "blur-provider=" = false.
Proof.
  induction s as [|c s IH]; rewrite after_marker_unfold, includes_unfold.
  - done.
  - destruct (strip_prefix _ (String c s)); [done|]. exact IH.
Qed.

Lemma number_le_of_Z (a b : Z) :
  number_le (of_Z a) (of_Z b) = bool_decide (a ≤ b).
Proof.
  unfold number_le, of_Z, Qle_bool. simpl. rewrite !Z.mul_1_r.
  case_bool_decide; lia.
Qed.

Lemma parse_xprop_no_marker p property :
  after_marker property = None → parse_xprop p property = fallback p.
Proof.
  intros Hnone. unfold parse_xprop, fallback.
  pose proof (string_match_argument property) as Hm.
  rewrite Hnone in Hm.
  destruct (string_match re_argument property); [done|].
  by destruct (CUSTOMIZE _).
Qed.

Lemma parse_xprop_shorthand p property rest (n : Z) :
  after_marker property = Some rest →
  parseInt rest = of_Z n →
  0 ≤ n ≤ 999 →
  parse_xprop p property = (fst (fallback p), of_Z n).
Proof.
  intros Hrest Hint Hn. unfold parse_xprop, fallback.
  pose proof (string_match_argument property) as Hm.
  rewrite Hrest in Hm.
  destruct (string_match re_argument property) as [m|]; [|done].
  simpl in Hm. injection Hm as ->. rewrite Hint, !number_le_of_Z.
  rewrite !bool_decide_eq_true_2 by lia.
  by destruct (CUSTOMIZE _).
Qed.

Lemma shorthand_read_all : forallb shorthand_read (seqZ 0 1000) = true.
Proof. vm_compute. reflexivity. Qed.

Lemma parse_xprop_decimal p (n : Z) :
  0 ≤ n ≤ 999 →
  parse_xprop p ("blur-provider=" +:+ pretty n) = (fst (fallback p), of_Z n).
Proof.
  intros Hn.
  assert (shorthand_read n = true) as Hread.
  { pose proof shorthand_read_all as Hall.
    rewrite forallb_forall in Hall. apply Hall.
    apply list_elem_of_In, elem_of_seqZ. lia. }
  unfold shorthand_read in Hread.
  apply andb_prop in Hread as [Harg Hint].
  apply bool_decide_eq_true_1 in Harg, Hint.
  by apply parse_xprop_shorthand with (rest := pretty n).
Qed.

(** C4. When the text after the marker [blur-provider=] is read by
    [parseInt] as an integer from 0 to 999, [parse_xprop] returns the
    fallback brightness with that integer as sigma; this is so for each
    such integer written in decimal right after the marker, and
    [blur-provider=60] with fallback (0.9, 40) gives (0.9, 60).  When the
    hint does not contain the marker, [parse_xprop] returns the fallback
    pair. *)
Theorem parse_xprop_shorthand_or_fallback p property :
  (∀ rest (n : Z),
     after_marker property = Some rest →
     parseInt rest = of_Z n →
     0 ≤ n ≤ 999 →
     parse_xprop p property = (fst (fallback p), of_Z n))
  ∧ (∀ n : Z,
       0 ≤ n ≤ 999 →
       parse_xprop p ("blur-provider=" +:+ pretty n)
       = (fst (fallback p), of_Z n))
  ∧ (fallback p = (Num (9 # 10), of_Z 40) →
     parse_xprop p "blur-provider=60" = (Num (9 # 10), of_Z 60))
  ∧ (includes property "blur-provider=" = false →
     parse_xprop p property = fallback p).
Proof.
  split; [|split; [|split]].
  - intros rest n. apply parse_xprop_shorthand.
  - apply parse_xprop_decimal.
  - intros Hfb.
    rewrite (parse_xprop_shorthand p _ "60" 60); [by rewrite Hfb|done..].
  - intros Hinc. by apply parse_xprop_no_marker, after_marker_includes.
Qed.

Lemma parse_xprop_shorthand_or_fallback_witness :
  parse_xprop (global_prefs true [] []) "x blur-provider=60"
    = (Num (9 # 10), of_Z 60)
  ∧ parse_xprop (global_prefs true [] []) "blur-provider"
    = (Num (9 # 10), of_Z 40).
Proof.
  split.
  - apply (proj1 (parse_xprop_shorthand_or_fallback
                    (global_prefs true [] []) "x blur-provider=60")
             "60" 60); [reflexivity | reflexivity | lia].
  - apply (proj2 (proj2 (proj2 (parse_xprop_shorthand_or_fallback
                    (global_prefs true [] []) "blur-provider"))));
      reflexivity.
Defined.

(** The three hints that the documentation of [parse_xprop] lists, and
    a field given as [default]. *)
Lemma parse_xprop_documented p :
  parse_xprop p "blur-provider=sigma:60,brightness:0.9"
    = (Num (9 # 10), of_Z 60)
  ∧ parse_xprop p "blur-provider=s:10,brightness:0.492"
    = (Num (123 # 250), of_Z 10)
  ∧ parse_xprop p "blur-provider=b:1.0,s:16" = (Num 1, of_Z 16)
  ∧ parse_xprop p "blur-provider=sigma:default,brightness:0.5"
    = (Num (1 # 2), snd (fallback p)).
Proof.
  unfold parse_xprop, fallback.
  destruct (CUSTOMIZE (applications p)); vm_compute; done.
Qed.

(** C5. The fields are not read independently of their order, and a
    field that is missing or malformed does not always leave the
    fallback: the sigma pattern also matches the last letter of the
    label [brightness], so a brightness field that comes first, or comes
    alone, sets sigma to the leading digits of the brightness (here 0,
    whatever the fallback and whatever sigma field follows); a brightness
    value of one character that is no number gives [NaN].  With the
    sigma field first the same two fields give (0.5, 20). *)
Theorem parse_xprop_brightness_first p :
  parse_xprop p "blur-provider=brightness:0.5,sigma:20"
    = (Num (1 # 2), of_Z 0)
  ∧ parse_xprop p "blur-provider=sigma:20,brightness:0.5"
    = (Num (1 # 2), of_Z 20)
  ∧ parse_xprop p "blur-provider=brightness:0.5" = (Num (1 # 2), of_Z 0)
  ∧ parse_xprop p "blur-provider=b:x" = (NaN, snd (fallback p)).
Proof.
  unfold parse_xprop, fallback.
  destruct (CUSTOMIZE (applications p)); vm_compute; done.
Qed.

(** ** Further properties of the parser *)

Lemma strip_prefix_app t s s' : strip_prefix t s = Some s' → s = t +:+ s'.
Proof.
  revert s. induction t as [|a t IH]; intros [|b s]; simpl; try done.
  - by intros [= <-].
  - by intros [= <-].
  - destruct (Ascii.eqb_spec a b) as [->|]; [|done].
    intros H%IH. by rewrite H.
Qed.

Lemma consumed_app t s' : consumed (t +:+ s') s' = t.
Proof.
  unfold consumed. induction t as [|a t IH]; simpl.
  - rewrite Nat.sub_diag. by destruct s'.
  - assert (String.length (t +:+ s') = (String.length t + String.length s')%nat)
      as Hlen by (clear; induction t; simpl; [done|lia]).
    rewrite Hlen in *.
    replace (S (String.length t + String.length s') - String.length s')%nat
      with (S (String.length t + String.length s' - String.length s'))
      by lia.
    by rewrite IH.
Qed.

Lemma or_else_Some {A} (x y : option A) r :
  or_else x y = Some r → x = Some r ∨ y = Some r.
Proof. destruct x; simpl; auto. Qed.

(** What a quantifier takes is a run of characters of its atom, within
    its bounds. *)
Lemma repeat_atom_sound {A} a min max s (k : string → option A) r :
  repeat_atom a min max s k = Some r →
  ∃ pre s',
    s = pre +:+ s' ∧ k s' = Some r ∧ all_match a pre = true
    ∧ (min ≤ String.length pre)%nat
    ∧ ∀ m, max = Some m → (String.length pre ≤ m)%nat.
Proof.
  assert (∀ s0 min0 (max0 : option nat),
    match min0 with O => k s0 | S _ => None end = Some r →
    ∃ pre s',
      s0 = pre +:+ s' ∧ k s' = Some r ∧ all_match a pre = true
      ∧ (min0 ≤ String.length pre)%nat
      ∧ ∀ m, max0 = Some m → (String.length pre ≤ m)%nat) as Hstop.
  { intros s0 [|n] max0 Hk; [|done]. exists EmptyString, s0.
    repeat split; simpl; try done; intros; lia. }
  revert min max. induction s as [|c s IH]; intros min max.
  { destruct max as [[|m]|]; cbn [repeat_atom]; apply Hstop. }
  assert (∀ max',
    (∀ m, max = Some m → max' = Some (pred m) ∧ m ≠ O) →
    (if atom_matches a c
     then or_else (repeat_atom a (pred min) max' s k)
            match min with O => k (String c s) | S _ => None end
     else match min with O => k (String c s) | S _ => None end) = Some r →
    ∃ pre s',
      String c s = pre +:+ s' ∧ k s' = Some r ∧ all_match a pre = true
      ∧ (min ≤ String.length pre)%nat
      ∧ ∀ m, max = Some m → (String.length pre ≤ m)%nat) as Hstep.
  { intros max' Hmax'. destruct (atom_matches a c) eqn:Hc; [|apply Hstop].
    intros [Hrec|Hk]%or_else_Some; [|by apply Hstop].
    apply IH in Hrec as (pre & s' & -> & Hk & Hall & Hmin & Hmax).
    exists (String c pre), s'. simpl. rewrite Hc, Hall.
    repeat split; try done; [lia|].
    intros m Hm. destruct (Hmax' m Hm) as [Hm' Hne].
    specialize (Hmax _ Hm'). lia. }
  destruct max as [[|m]|]; cbn [repeat_atom].
  - apply Hstop.
  - apply Hstep. intros m' [= <-]. done.
  - apply Hstep. done.
Qed.

Lemma is_digit_char c : is_digit c = true → c ∈ digit_chars.
Proof.
  intros H. destruct c as [[] [] [] [] [] [] [] []]; vm_compute in H;
    first [discriminate H | (unfold digit_chars; repeat constructor)].
Qed.

Lemma digit_strings_elem t :
  all_match DigitClass t = true → t ∈ digit_strings (String.length t).
Proof.
  induction t as [|c t IH]; cbn [all_match String.length digit_strings];
    [intros _; by apply list_elem_of_singleton|].
  intros [Hc Ht]%andb_prop.
  apply list_elem_of_bind. exists c. split; [|by apply is_digit_char].
  apply list_elem_of_bind. exists t. split; [|by apply IH].
  by apply list_elem_of_singleton.
Qed.

Lemma digit_strings_parse :
  forallb (λ t, sigma_in_range (parseInt t))
    (digit_strings 1 ++ digit_strings 2 ++ digit_strings 3) = true.
Proof. vm_compute. reflexivity. Qed.

Lemma sigma_in_range_spec x :
  sigma_in_range x = true ↔ ∃ n : Z, 0 ≤ n ≤ 999 ∧ x = of_Z n.
Proof.
  split.
  - destruct x as [| |[n d]]; cbn [sigma_in_range Qden Qnum]; try done.
    intros [[Hd H0]%andb_prop H1]%andb_prop.
    apply Pos.eqb_eq in Hd as ->. exists n. split; [lia|done].
  - intros (n & Hn & ->). simpl.
    rewrite !andb_true_iff. repeat split; lia.
Qed.

(** A match of the sigma pattern has one to three digits, or [default],
    in group 2; [parseInt] reads the digits as an integer from 0 to
    999. *)
Lemma re_sigma_value s m :
  string_match re_sigma s = Some m →
  group m 2 = "default" ∨ sigma_in_range (parseInt (group m 2)) = true.
Proof.
  assert (∀ s0 s1 caps m0,
    rmatch (Cat (Text ":")
              (Group 2 (Alt (Text "default")
                            (Quant DigitClass 1 (Some 3%nat)))))
      s1 caps (match_array s0) = Some m0 →
    group m0 2 = "default" ∨ sigma_in_range (parseInt (group m0 2)) = true)
    as Hvalue.
  { intros s0 s1 caps m0. cbn [rmatch].
    destruct (strip_prefix ":" s1) as [s2|]; [|done].
    intros [Hd|Hq]%or_else_Some.
    - destruct (strip_prefix "default" s2) as [s3|] eqn:Hp; [|done].
      injection Hd as <-. left. unfold group.
      rewrite lookup_insert_ne, lookup_insert_eq by done. simpl.
      apply strip_prefix_app in Hp as ->. apply consumed_app.
    - apply repeat_atom_sound in Hq
        as (pre & s3 & -> & Hk & Hall & Hmin & Hmax).
      injection Hk as <-. right. unfold group.
      rewrite lookup_insert_ne, lookup_insert_eq by done. simpl.
      rewrite consumed_app. specialize (Hmax 3%nat eq_refl).
      pose proof digit_strings_parse as Hparse.
      rewrite forallb_forall in Hparse. apply Hparse.
      apply list_elem_of_In. pose proof (digit_strings_elem pre Hall) as Hin.
      rewrite !elem_of_app.
      destruct (String.length pre) as [|[|[|[|n]]]]; try lia; auto. }
  induction s as [|c s IH]; rewrite string_match_unfold.
  - destruct (rmatch re_sigma "" ∅ (match_array "")) as [m0|] eqn:Hm; [|done].
    intros [= <-]. unfold re_sigma in Hm. cbn [rmatch] in Hm.
    apply or_else_Some in Hm as [Hm|Hm]; simpl in Hm; done.
  - destruct (rmatch re_sigma (String c s) ∅ (match_array (String c s)))
      as [m0|] eqn:Hm; [|exact IH].
    intros [= <-]. unfold re_sigma in Hm.
    cbn [rmatch] in Hm.
    apply or_else_Some in Hm as [Hm|Hm].
    + destruct (strip_prefix "sigma" (String c s)) as [s1|]; [|done].
      by apply Hvalue in Hm.
    + destruct (strip_prefix "s" (String c s)) as [s1|]; [|done].
      by apply Hvalue in Hm.
Qed.

Lemma parseInt_cases s : parseInt s = NaN ∨ ∃ n, parseInt s = of_Z n.
Proof.
  unfold parseInt. destruct (read_sign _) as [negative s1].
  match goal with
  | |- context [let '(_, _) := ?X in _] => destruct X as [radix s2]
  end.
  destruct (starts_with_digit _ _); eauto.
Qed.

(** X1. The sigma that [parse_xprop] returns is the fallback sigma or an
    integer from 0 to 999, whatever the hint. *)
Theorem parse_xprop_sigma_range p property :
  snd (parse_xprop p property) = snd (fallback p)
  ∨ ∃ n : Z, 0 ≤ n ≤ 999 ∧ snd (parse_xprop p property) = of_Z n.
Proof.
  unfold parse_xprop, fallback.
  destruct (if CUSTOMIZE _ then _ else _) as [brightness sigma].
  destruct (string_match re_argument property) as [arg|]; [|by left].
  destruct (negb _ && _ && _) eqn:Hshort.
  - right. apply andb_prop in Hshort as [[Hnan H0]%andb_prop H999].
    destruct (parseInt_cases (group arg 1)) as [Hp|[n Hp]];
      rewrite Hp in *; [done|].
    rewrite number_le_of_Z in H0, H999.
    apply bool_decide_eq_true_1 in H0, H999. eauto.
  - cbn [snd].
    destruct (string_match re_sigma (group arg 1)) as [m|] eqn:Hm; [|by left].
    destruct (String.eqb (group m 2) "default") eqn:Hd; [by left|].
    right. apply sigma_in_range_spec.
    destruct (re_sigma_value _ _ Hm) as [Hdef|Hr]; [|done].
    rewrite Hdef in Hd. done.
Qed.

(** Without a colon in it, a string has no match of a pattern that needs
    one. *)
Lemma includes_colon_cons c s :
  includes (String c s) ":" = (Ascii.eqb ":" c || includes s ":").
Proof.
  rewrite includes_unfold. cbn [strip_prefix].
  by destruct (Ascii.eqb ":" c).
Qed.

Lemma strip_prefix_colon t s s' :
  strip_prefix t s = Some s' → includes s ":" = false →
  includes s' ":" = false.
Proof.
  revert s. induction t as [|a t IH]; intros [|b s]; cbn [strip_prefix];
    try done.
  - by intros [= <-].
  - by intros [= <-].
  - destruct (Ascii.eqb a b); [|done]. intros Hp.
    rewrite includes_colon_cons. intros [_ Hs]%orb_false_elim.
    by apply (IH s).
Qed.

Lemma no_colon_no_prefix s :
  includes s ":" = false → strip_prefix ":" s = None.
Proof.
  destruct s as [|c s]; [done|]. rewrite includes_colon_cons.
  intros [Hc _]%orb_false_elim. cbn [strip_prefix]. by rewrite Hc.
Qed.

Lemma no_colon_tail c s :
  includes (String c s) ":" = false → includes s ":" = false.
Proof. rewrite includes_colon_cons. by intros [_ Hs]%orb_false_elim. Qed.

Lemma rmatch_field_no_colon {A} t1 t2 r s caps
    (k : string → gmap nat string → option A) :
  includes s ":" = false →
  rmatch (Cat (Group 1 (Alt (Text t1) (Text t2))) (Cat (Text ":") r)) s caps k
  = None.
Proof.
  intros Hs. cbn [rmatch].
  destruct (strip_prefix t1 s) as [s1|] eqn:H1;
    destruct (strip_prefix t2 s) as [s2|] eqn:H2;
    rewrite ?(no_colon_no_prefix s1 (strip_prefix_colon _ _ _ H1 Hs)),
      ?(no_colon_no_prefix s2 (strip_prefix_colon _ _ _ H2 Hs));
    done.
Qed.

Lemma no_colon_no_field s :
  includes s ":" = false →
  string_match re_sigma s = None ∧ string_match re_brightness s = None.
Proof.
  induction s as [|c s IH]; intros Hs.
  - rewrite (string_match_unfold re_sigma), (string_match_unfold re_brightness).
    unfold re_sigma, re_brightness.
    by rewrite !rmatch_field_no_colon by done.
  - rewrite (string_match_unfold re_sigma (String c s)),
      (string_match_unfold re_brightness (String c s)).
    unfold re_sigma at 1, re_brightness at 1.
    rewrite !rmatch_field_no_colon by done.
    apply IH. by apply no_colon_tail in Hs.
Qed.

(** X2. A hint whose text after the marker has no colon and is not read
    by [parseInt] as an integer from 0 to 999 (the empty text, a word,
    1000) gives the fallback pair. *)
Theorem parse_xprop_no_field p property arg :
  after_marker property = Some arg →
  includes arg ":" = false →
  sigma_in_range (parseInt arg) = false →
  parse_xprop p property = fallback p.
Proof.
  intros Harg Hcolon Hshort. unfold parse_xprop, fallback.
  pose proof (string_match_argument property) as Hm. rewrite Harg in Hm.
  destruct (string_match re_argument property) as [m|]; [|done].
  simpl in Hm. injection Hm as ->.
  destruct (no_colon_no_field arg Hcolon) as [-> ->].
  destruct (if CUSTOMIZE _ then _ else _) as [brightness sigma].
  destruct (negb _ && _ && _) eqn:Hc; [|done].
  apply andb_prop in Hc as [[Hnan H0]%andb_prop H999].
  destruct (parseInt_cases arg) as [Hp|[n Hp]]; rewrite Hp in *; [done|].
  rewrite number_le_of_Z in H0, H999.
  apply bool_decide_eq_true_1 in H0, H999.
  assert (sigma_in_range (of_Z n) = true) as Hr
    by (apply sigma_in_range_spec; eauto).
  congruence.
Qed.

Lemma parse_xprop_no_field_witness :
  parse_xprop (global_prefs true [] []) "blur-provider=1000"
  = (Num (9 # 10), of_Z 40)
  ∧ parse_xprop (global_prefs true [] []) "blur-provider="
    = (Num (9 # 10), of_Z 40).
Proof.
  split.
  - exact (parse_xprop_no_field (global_prefs true [] [])
             "blur-provider=1000" "1000" eq_refl eq_refl eq_refl).
  - exact (parse_xprop_no_field (global_prefs true [] [])
             "blur-provider=" "" eq_refl eq_refl eq_refl).
Defined.

(** X3. [parse_xprop] reads nothing of a hint but the text after its
    first marker, up to the end of that line: two hints with the same
    such text, or both without marker, give the same pair. *)
Theorem parse_xprop_reads_argument p property1 property2 :
  after_marker property1 = after_marker property2 →
  parse_xprop p property1 = parse_xprop p property2.
Proof.
  intros Heq. unfold parse_xprop.
  pose proof (string_match_argument property1) as H1.
  pose proof (string_match_argument property2) as H2.
  rewrite Heq in H1.
  destruct (string_match re_argument property1) as [m1|],
    (string_match re_argument property2) as [m2|]; simpl in *;
    try congruence.
  assert (group m1 1 = group m2 1) as -> by congruence. done.
Qed.

Lemma parse_xprop_reads_argument_witness :
  parse_xprop (global_prefs true [] [])
    ("some-hint=1:blur-provider=s:7" +:+ String "010" "blur-provider=9")
  = parse_xprop (global_prefs true [] []) "blur-provider=s:7".
Proof. apply parse_xprop_reads_argument. reflexivity. Defined.

End Parser.

(** * The offset calculator *)

(** C8. [compute_offset] is a function of the frame and buffer
    rectangles alone, defined for all integer rectangles: each field of
    its result is the frame's field minus the buffer's; the frame
    (10, 10, 100, 50) and the buffer (0, 0, 120, 70) give
    (10, 10, -20, -20). *)
Theorem compute_offset_difference :
  (∀ meta_window,
     compute_offset meta_window =
       {| Rect.x := Rect.x (get_frame_rect meta_window)
                    - Rect.x (get_buffer_rect meta_window);
          Rect.y := Rect.y (get_frame_rect meta_window)
                    - Rect.y (get_buffer_rect meta_window);
          Rect.width := Rect.width (get_frame_rect meta_window)
                        - Rect.width (get_buffer_rect meta_window);
          Rect.height := Rect.height (get_frame_rect meta_window)
                         - Rect.height (get_buffer_rect meta_window) |})
  ∧ (∀ meta_window,
       get_frame_rect meta_window = Rect.Build_t 10 10 100 50 →
       get_buffer_rect meta_window = Rect.Build_t 0 0 120 70 →
       compute_offset meta_window = Rect.Build_t 10 10 (-20) (-20))
  ∧ (∀ w1 w2,
       get_frame_rect w1 = get_frame_rect w2 →
       get_buffer_rect w1 = get_buffer_rect w2 →
       compute_offset w1 = compute_offset w2).
Proof.
  split; [done|split].
  - intros w Hf Hb. unfold compute_offset. by rewrite Hf, Hb.
  - intros w1 w2 Hf Hb. unfold compute_offset. by rewrite Hf, Hb.
Qed.

Lemma compute_offset_difference_witness :
  compute_offset (window 1 (Some "Foo") None)
    = Rect.Build_t 10 10 (-20) (-20).
Proof.
  apply (proj1 (proj2 compute_offset_difference)
           (window 1 (Some "Foo") None)); reflexivity.
Defined.

(** * The engine *)

Section Engine.

Implicit Types (pid : string) (st : state) (meta_window : MetaWindow).

(** Reduce the projections of a state built by [set_maps], [final] and
    [and_then] on a completion; the maps are left alone. *)
Ltac state_simpl :=
  cbn [set_maps prefs window_map blur_actor_map window_group final and_then]
    in *.

Lemma set_maps_id st : set_maps st (window_map st) (blur_actor_map st) = st.
Proof. by destruct st. Qed.

Lemma bound_lookup pid st : bound pid st ↔ is_Some (blur_actor_map st !! pid).
Proof. apply elem_of_dom. Qed.

Lemma tracked_lookup pid st : tracked pid st ↔ is_Some (window_map st !! pid).
Proof. apply elem_of_dom. Qed.

Lemma has_bound pid st : has (blur_actor_map st) pid = true ↔ bound pid st.
Proof. unfold has. by rewrite bool_decide_eq_true, bound_lookup. Qed.

Lemma has_unbound pid st : has (blur_actor_map st) pid = false ↔ ¬ bound pid st.
Proof. unfold has. by rewrite bool_decide_eq_false, bound_lookup. Qed.

(** ** [remove_blur] *)

Lemma remove_blur_unavailable pid st :
  window_group st = None → remove_blur pid st = Normal st.
Proof. intros Hg. unfold remove_blur. by rewrite Hg. Qed.

Lemma remove_blur_untracked pid st :
  window_map st !! pid = None → remove_blur pid st = Normal st.
Proof.
  intros Hw. unfold remove_blur. rewrite Hw. by destruct (window_group st).
Qed.

Lemma remove_blur_tracked pid st :
  is_Some (window_group st) → is_Some (window_map st !! pid) →
  remove_blur pid st =
    Normal (set_maps st (delete pid (window_map st))
              (delete pid (blur_actor_map st))).
Proof.
  intros [g Hg] [w Hw]. unfold remove_blur. rewrite Hg, Hw.
  destruct (blur_actor_map st !! pid) eqn:Hb; [done|].
  by rewrite (delete_id (blur_actor_map st)).
Qed.

Lemma remove_blur_normal pid st : remove_blur pid st = Normal (final (remove_blur pid st)).
Proof.
  unfold remove_blur.
  by destruct (window_group st), (window_map st !! pid),
    (blur_actor_map st !! pid).
Qed.

(** ** One token at a time *)

Lemma check_blur_policy pid wa meta_window st :
  check_blur pid wa meta_window st =
    match policy (prefs st) meta_window with
    | Enabled b s => update_blur pid wa meta_window b s st
    | Disabled =>
        if has (blur_actor_map st) pid then remove_blur pid st else Normal st
    end.
Proof.
  unfold check_blur, policy, listed, fallback.
  destruct (not_empty _ && _); [by destruct (CUSTOMIZE _)|].
  destruct (get_mutter_hints meta_window) as [hint|]; [|done].
  destruct (includes hint _); [|done].
  by destruct (parse_xprop _ hint).
Qed.

Lemma agree_except_refl pid st : agree_except pid st st.
Proof. by repeat split. Qed.

Lemma agree_except_insert pid st w a :
  agree_except pid st
    (set_maps st (<[pid := w]> (window_map st))
       (<[pid := a]> (blur_actor_map st))).
Proof.
  repeat split; state_simpl; by rewrite lookup_insert_ne.
Qed.

Lemma agree_except_update pid st a :
  agree_except pid st
    (set_maps st (window_map st) (<[pid := a]> (blur_actor_map st))).
Proof.
  repeat split; state_simpl; by rewrite ?lookup_insert_ne.
Qed.

Lemma agree_except_delete pid st :
  agree_except pid st
    (set_maps st (delete pid (window_map st))
       (delete pid (blur_actor_map st))).
Proof.
  repeat split; state_simpl; by rewrite lookup_delete_ne.
Qed.

Lemma agree_except_delete_window pid st :
  agree_except pid st
    (set_maps st (delete pid (window_map st)) (blur_actor_map st)).
Proof.
  repeat split; state_simpl; by rewrite ?lookup_delete_ne.
Qed.

Lemma agree_except_trans pid st1 st2 st3 :
  agree_except pid st1 st2 → agree_except pid st2 st3 →
  agree_except pid st1 st3.
Proof.
  intros (Hp1 & Hg1 & H1) (Hp2 & Hg2 & H2).
  split; [congruence|]. split; [congruence|].
  intros q Hq. destruct (H1 q Hq), (H2 q Hq). split; congruence.
Qed.

Lemma remove_blur_agree pid st :
  agree_except pid st (final (remove_blur pid st)).
Proof.
  unfold remove_blur.
  destruct (window_group st); [|apply agree_except_refl].
  destruct (window_map st !! pid); [|apply agree_except_refl].
  destruct (blur_actor_map st !! pid);
    [apply agree_except_delete | apply agree_except_delete_window].
Qed.

Lemma update_blur_agree pid wa meta_window b s st :
  agree_except pid st (final (update_blur pid wa meta_window b s st)).
Proof.
  unfold update_blur, create_blur_effect.
  destruct (blur_actor_map st !! pid), (strict_eq s (of_Z 0)); simpl;
    try apply remove_blur_agree; try apply agree_except_refl.
  - apply agree_except_update.
  - destruct wa; [apply agree_except_insert | apply agree_except_refl].
Qed.

Lemma check_blur_agree pid wa meta_window st :
  agree_except pid st (final (check_blur pid wa meta_window st)).
Proof.
  rewrite check_blur_policy.
  destruct (policy _ _); [apply update_blur_agree|].
  destruct (has _ pid); [apply remove_blur_agree | apply agree_except_refl].
Qed.

Lemma track_new_agree pid wa meta_window st :
  agree_except pid st (final (track_new pid wa meta_window st)).
Proof.
  unfold track_new.
  destruct wa; [apply check_blur_agree | apply agree_except_refl].
Qed.

Lemma on_destroy_agree pid st :
  agree_except pid st (final (on_destroy pid st)).
Proof.
  unfold on_destroy.
  assert (agree_except pid st
    (final (if has (blur_actor_map st) pid then remove_blur pid st
            else Normal st))) as H1.
  { destruct (has _ pid); [apply remove_blur_agree | apply agree_except_refl]. }
  destruct (if has _ pid then _ else _) as [st1|st1]; simpl in *; [|done].
  eapply agree_except_trans; [exact H1|].
  apply agree_except_delete_window.
Qed.

Lemma on_size_changed_agree pid meta_window st :
  agree_except pid st (final (on_size_changed pid meta_window st)).
Proof.
  unfold on_size_changed.
  destruct (blur_actor_map st !! pid);
    [apply agree_except_update | apply agree_except_refl].
Qed.

Lemma on_notify_visible_agree pid a st :
  agree_except pid st (final (on_notify_visible pid a st)).
Proof.
  unfold on_notify_visible.
  destruct (blur_actor_map st !! pid);
    [apply agree_except_update | apply agree_except_refl].
Qed.

(** The size and visibility handlers keep the keys of both maps. *)
Lemma on_size_changed_keys pid meta_window st :
  dom (blur_actor_map (final (on_size_changed pid meta_window st)))
    = dom (blur_actor_map st)
  ∧ window_map (final (on_size_changed pid meta_window st)) = window_map st.
Proof.
  unfold on_size_changed.
  destruct (blur_actor_map st !! pid) eqn:Hb; [|done]. state_simpl.
  split; [|done]. apply dom_insert_lookup_L. eauto.
Qed.

Lemma on_notify_visible_keys pid a st :
  dom (blur_actor_map (final (on_notify_visible pid a st)))
    = dom (blur_actor_map st)
  ∧ window_map (final (on_notify_visible pid a st)) = window_map st.
Proof.
  unfold on_notify_visible.
  destruct (blur_actor_map st !! pid) eqn:Hb; [|done]. state_simpl.
  split; [|done]. apply dom_insert_lookup_L. eauto.
Qed.

(** ** Whether the token is bound after a policy evaluation *)

Lemma remove_blur_only_removes pid st q (a : BlurActor) :
  blur_actor_map (final (remove_blur pid st)) !! q = Some a →
  blur_actor_map st !! q = Some a.
Proof.
  unfold remove_blur.
  destruct (window_group st); [|done].
  destruct (window_map st !! pid); [|done].
  destruct (blur_actor_map st !! pid); [|done]. state_simpl.
  destruct (decide (q = pid)) as [->|Hq].
  - by rewrite lookup_delete_eq.
  - by rewrite lookup_delete_ne.
Qed.

Lemma remove_blur_unbinds pid st :
  is_Some (window_group st) → (bound pid st → tracked pid st) →
  ¬ bound pid (final (remove_blur pid st)).
Proof.
  intros Hg Ht. rewrite bound_lookup.
  destruct (window_map st !! pid) as [w|] eqn:Hw.
  - rewrite remove_blur_tracked by eauto. state_simpl.
    rewrite lookup_delete_eq. by intros [].
  - rewrite remove_blur_untracked by done. state_simpl.
    rewrite <- bound_lookup. intros Hb%Ht%tracked_lookup.
    rewrite Hw in Hb. by destruct Hb.
Qed.

Lemma update_blur_bound pid (a : WindowActor) meta_window b s st :
  is_Some (window_group st) → (bound pid st → tracked pid st) →
  bound pid (final (update_blur pid (Some a) meta_window b s st))
  ↔ strict_eq s (of_Z 0) = false.
Proof.
  intros Hg Ht. unfold update_blur.
  destruct (blur_actor_map st !! pid) as [actor|] eqn:Hb;
    destruct (strict_eq s (of_Z 0)); simpl.
  - split; [|done]. intros Hb'. by apply remove_blur_unbinds in Hb'.
  - rewrite bound_lookup. state_simpl. rewrite lookup_insert_eq. by eauto.
  - rewrite bound_lookup, Hb. split; [by intros []|done].
  - rewrite bound_lookup. state_simpl. rewrite lookup_insert_eq. by eauto.
Qed.

Lemma check_blur_bound pid (a : WindowActor) meta_window st :
  is_Some (window_group st) → (bound pid st → tracked pid st) →
  bound pid (final (check_blur pid (Some a) meta_window st))
  ↔ blurs (policy (prefs st) meta_window) = true.
Proof.
  intros Hg Ht. rewrite check_blur_policy.
  destruct (policy _ _) as [b s|]; simpl.
  - rewrite update_blur_bound by done. by destruct (strict_eq _ _).
  - split; [|done]. destruct (has _ pid) eqn:Hh.
    + intros Hb. by apply remove_blur_unbinds in Hb.
    + by apply has_unbound in Hh.
Qed.

(** A binding that has sigma 0 after [update_blur] was there before,
    as it is. *)
Lemma update_blur_stores_no_zero pid wa meta_window b s st q actor :
  blur_actor_map (final (update_blur pid wa meta_window b s st)) !! q
    = Some actor →
  strict_eq (effect_sigma actor) (of_Z 0) = true →
  blur_actor_map st !! q = Some actor.
Proof.
  unfold update_blur, create_blur_effect.
  destruct (blur_actor_map st !! pid) as [old|] eqn:Hb;
    destruct (strict_eq s (of_Z 0)) eqn:Hs; simpl.
  - intros Hq _. by apply remove_blur_only_removes in Hq.
  - destruct (decide (q = pid)) as [->|Hq].
    + rewrite lookup_insert_eq. intros [= <-]. simpl. congruence.
    + by rewrite lookup_insert_ne.
  - done.
  - destruct wa as [a|]; [|done]. state_simpl.
    destruct (decide (q = pid)) as [->|Hq].
    + rewrite lookup_insert_eq. intros [= <-]. simpl. congruence.
    + by rewrite lookup_insert_ne.
Qed.

(** ** Events that leave a token as it is *)

Lemma agree_except_bound pid q st st' :
  agree_except q st st' → q ≠ pid → bound pid st' ↔ bound pid st.
Proof.
  intros (_ & _ & H) Hq. rewrite !bound_lookup.
  destruct (H pid) as [_ ->]; done.
Qed.

Lemma agree_except_tracked pid q st st' :
  agree_except q st st' → q ≠ pid → tracked pid st' ↔ tracked pid st.
Proof.
  intros (_ & _ & H) Hq. rewrite !tracked_lookup.
  destruct (H pid) as [-> _]; done.
Qed.

Lemma on_window_created_agree pid w st :
  agree_except pid st (final (on_window_created w pid st)).
Proof.
  destruct w; [apply track_new_agree | apply agree_except_refl].
Qed.

Lemma handle_keeps_bound pid e st :
  ¬ decides pid e → bound pid (final (handle e st)) ↔ bound pid st.
Proof.
  destruct e as [w q|q|q w|q w|q a|ws|s|b| |g|p]; simpl; intros Hd.
  - apply (agree_except_bound pid q); [apply on_window_created_agree|done].
  - apply (agree_except_bound pid q); [apply on_destroy_agree|done].
  - apply (agree_except_bound pid q); [apply check_blur_agree|done].
  - unfold bound. by rewrite (proj1 (on_size_changed_keys q w st)).
  - unfold bound. by rewrite (proj1 (on_notify_visible_keys q a st)).
  - by destruct Hd.
  - unfold bound. state_simpl. by rewrite dom_fmap_L.
  - unfold bound. state_simpl. by rewrite dom_fmap_L.
  - by destruct Hd.
  - done.
  - done.
Qed.

Lemma run_keeps_bound pid events st :
  Forall (λ e, ¬ decides pid e) events →
  bound pid (run events st) ↔ bound pid st.
Proof.
  intros Hall. revert st.
  induction Hall as [|e events He _ IH]; intros st; simpl; [done|].
  by rewrite IH, handle_keeps_bound.
Qed.

(** ** The two loops of the component *)

(** After [remove_each m]: the keys that [removed] tells are gone from
    both maps; everything else is as it was. *)
Lemma remove_each_spec {V} (m : gmap string V) st :
  ∃ st1,
    remove_each m st = Normal st1
    ∧ prefs st1 = prefs st
    ∧ window_group st1 = window_group st
    ∧ ∀ k,
        window_map st1 !! k
          = (if removed m st k then None else window_map st !! k)
        ∧ blur_actor_map st1 !! k
          = (if removed m st k then None else blur_actor_map st !! k).
Proof.
  unfold remove_each.
  apply (map_fold_weak_ind (λ c m, ∃ st1,
    c = Normal st1 ∧ prefs st1 = prefs st
    ∧ window_group st1 = window_group st
    ∧ ∀ k,
        window_map st1 !! k
          = (if removed m st k then None else window_map st !! k)
        ∧ blur_actor_map st1 !! k
          = (if removed m st k then None else blur_actor_map st !! k))).
  - exists st. repeat split; unfold removed;
      rewrite bool_decide_eq_false_2; try done;
      rewrite lookup_empty; by intros (_ & [] & _).
  - clear m. intros i x m c Hi (st1 & -> & Hp & Hg & IH). simpl.
    assert (removed m st i = false) as Hri.
    { unfold removed. rewrite Hi. apply bool_decide_eq_false_2.
      by intros (_ & [] & _). }
    assert (∀ k, k ≠ i → removed (<[i:=x]> m) st k = removed m st k) as Hrk.
    { intros k Hk. unfold removed. by rewrite lookup_insert_ne. }
    destruct (IH i) as [Hwi Hbi]. rewrite Hri in Hwi, Hbi.
    destruct (decide (is_Some (window_group st)
                      ∧ is_Some (window_map st !! i))) as [[Hgs Hws]|Hno].
    + rewrite remove_blur_tracked by (rewrite ?Hg, ?Hwi; done).
      eexists. split; [done|]. state_simpl. do 2 (split; [done|]).
      intros k. destruct (decide (k = i)) as [->|Hk].
      * rewrite !lookup_delete_eq. unfold removed.
        rewrite lookup_insert_eq, bool_decide_eq_true_2; eauto.
      * rewrite !lookup_delete_ne, Hrk by done. apply IH.
    + assert (remove_blur i st1 = Normal st1) as ->.
      { destruct (window_group st) as [g|] eqn:Hgs.
        - apply remove_blur_untracked. rewrite Hwi.
          apply eq_None_not_Some. intros Hs. apply Hno. eauto.
        - apply remove_blur_unavailable. congruence. }
      exists st1. do 3 (split; [done|]).
      intros k. destruct (decide (k = i)) as [->|Hk].
      * unfold removed.
        rewrite bool_decide_eq_false_2 by (intros (? & _ & ?); by apply Hno).
        done.
      * rewrite Hrk by done. apply IH.
Qed.

Lemma and_then_final c f :
  final (and_then c f) = match c with Normal st => final (f st) | Throw st => st end.
Proof. by destruct c. Qed.

(** A token that is not drawn keeps what the maps hold for it. *)
Lemma track_windows_lookup k windows st :
  k ∉ windows.*2 →
  window_map (final (track_windows windows st)) !! k = window_map st !! k
  ∧ blur_actor_map (final (track_windows windows st)) !! k
    = blur_actor_map st !! k.
Proof.
  revert st. induction windows as [|[w q] windows IH]; intros st Hk; [done|].
  rewrite fmap_cons, not_elem_of_cons in Hk. destruct Hk as [Hq Hk].
  cbn [track_windows]. rewrite and_then_final.
  pose proof (track_new_agree q (get_compositor_private w) w st)
    as (_ & _ & Hagree).
  destruct (track_new q _ w st) as [st1|st1]; simpl in Hagree.
  - destruct (IH st1 Hk) as [-> ->]. by apply Hagree.
  - by apply Hagree.
Qed.

Lemma track_workspaces_lookup k workspaces st :
  k ∉ tokens workspaces →
  window_map (final (track_workspaces workspaces st)) !! k
    = window_map st !! k
  ∧ blur_actor_map (final (track_workspaces workspaces st)) !! k
    = blur_actor_map st !! k.
Proof.
  unfold tokens. revert st.
  induction workspaces as [|windows workspaces IH]; intros st Hk; [done|].
  cbn [concat] in Hk. rewrite fmap_app, not_elem_of_app in Hk.
  destruct Hk as [Hw Hk].
  cbn [track_workspaces]. rewrite and_then_final.
  pose proof (track_windows_lookup k windows st Hw) as Hlookup.
  destruct (track_windows windows st) as [st1|st1]; simpl in Hlookup.
  - destruct (IH st1 Hk) as [-> ->]. done.
  - done.
Qed.

(** ** Bindings without an entry in the window map *)

Lemma bindings_tracked_lookup st :
  bindings_tracked st ↔ ∀ k, bound k st → tracked k st.
Proof. unfold bindings_tracked, bound, tracked. set_unfold. done. Qed.

Lemma agree_except_tracked_bindings pid st st' :
  agree_except pid st st' → (bound pid st' → tracked pid st') →
  bindings_tracked st → bindings_tracked st'.
Proof.
  rewrite !bindings_tracked_lookup. intros Hagree Hpid Hall k.
  destruct (decide (k = pid)) as [->|Hk]; [done|].
  rewrite (agree_except_bound k pid st st'), (agree_except_tracked k pid st st')
    by done.
  apply Hall.
Qed.

Lemma remove_blur_tracks pid st :
  (bound pid st → tracked pid st) →
  bound pid (final (remove_blur pid st)) →
  tracked pid (final (remove_blur pid st)).
Proof.
  intros Ht. unfold remove_blur.
  destruct (window_group st); [|done].
  destruct (window_map st !! pid) eqn:Hw; [|done].
  destruct (blur_actor_map st !! pid) eqn:Hb.
  - rewrite bound_lookup. state_simpl. rewrite lookup_delete_eq. by intros [].
  - rewrite bound_lookup. state_simpl. rewrite Hb. by intros [].
Qed.

Lemma update_blur_tracks pid wa meta_window b s st :
  (bound pid st → tracked pid st) →
  bound pid (final (update_blur pid wa meta_window b s st)) →
  tracked pid (final (update_blur pid wa meta_window b s st)).
Proof.
  intros Ht. unfold update_blur, create_blur_effect.
  destruct (blur_actor_map st !! pid) as [old|] eqn:Hb;
    destruct (strict_eq s (of_Z 0)); simpl.
  - by apply remove_blur_tracks.
  - intros _. rewrite tracked_lookup. state_simpl.
    apply tracked_lookup, Ht, bound_lookup. eauto.
  - done.
  - destruct wa; [|done]. intros _. rewrite tracked_lookup. state_simpl.
    rewrite lookup_insert_eq. eauto.
Qed.

Lemma check_blur_tracks pid wa meta_window st :
  (bound pid st → tracked pid st) →
  bound pid (final (check_blur pid wa meta_window st)) →
  tracked pid (final (check_blur pid wa meta_window st)).
Proof.
  intros Ht. rewrite check_blur_policy.
  destruct (policy _ _); [by apply update_blur_tracks|].
  destruct (has _ pid); [by apply remove_blur_tracks | done].
Qed.

Lemma track_new_tracked pid wa meta_window st :
  bindings_tracked st →
  bindings_tracked (final (track_new pid wa meta_window st)).
Proof.
  intros Hall. unfold track_new. destruct wa; [|done].
  eapply agree_except_tracked_bindings; [apply check_blur_agree| |done].
  apply check_blur_tracks. by apply bindings_tracked_lookup.
Qed.

Lemma track_windows_tracked windows st :
  bindings_tracked st → bindings_tracked (final (track_windows windows st)).
Proof.
  revert st. induction windows as [|[w q] windows IH]; intros st Hall; [done|].
  cbn [track_windows]. rewrite and_then_final.
  pose proof (track_new_tracked q (get_compositor_private w) w st Hall) as H1.
  destruct (track_new q _ w st); simpl in H1; [by apply IH | done].
Qed.

Lemma track_workspaces_tracked workspaces st :
  bindings_tracked st →
  bindings_tracked (final (track_workspaces workspaces st)).
Proof.
  revert st.
  induction workspaces as [|windows workspaces IH]; intros st Hall; [done|].
  cbn [track_workspaces]. rewrite and_then_final.
  pose proof (track_windows_tracked windows st Hall) as H1.
  destruct (track_windows windows st); simpl in H1; [by apply IH | done].
Qed.

Lemma remove_each_tracked {V} (m : gmap string V) st :
  bindings_tracked st → bindings_tracked (final (remove_each m st)).
Proof.
  rewrite !bindings_tracked_lookup. intros Hall k.
  destruct (remove_each_spec m st) as (st1 & -> & _ & _ & Hk). simpl.
  rewrite bound_lookup, tracked_lookup. destruct (Hk k) as [-> ->].
  destruct (removed m st k); [done|].
  rewrite <- bound_lookup, <- tracked_lookup. apply Hall.
Qed.

(** With the window group there and every binding tracked, the first
    loop of the rescan empties both maps. *)
Lemma remove_each_empties st :
  is_Some (window_group st) → bindings_tracked st →
  ∃ st1,
    remove_each (window_map st) st = Normal st1
    ∧ window_map st1 = ∅ ∧ blur_actor_map st1 = ∅.
Proof.
  intros Hg Hall. rewrite bindings_tracked_lookup in Hall.
  destruct (remove_each_spec (window_map st) st) as (st1 & Hr & _ & _ & Hk).
  exists st1. split; [done|].
  split; apply map_empty; intros k; destruct (Hk k) as [Hw Hb].
  - rewrite Hw. unfold removed. case_bool_decide as Hc; [done|].
    apply eq_None_not_Some. intros Hs. apply Hc. eauto.
  - rewrite Hb. unfold removed. case_bool_decide as Hc; [done|].
    apply eq_None_not_Some. intros Hs%bound_lookup%Hall%tracked_lookup.
    apply Hc. eauto.
Qed.

(** ** A token that is in neither map *)

Lemma absent_not_bound pid st : absent pid st ↔ ¬ tracked pid st ∧ ¬ bound pid st.
Proof.
  unfold absent. by rewrite tracked_lookup, bound_lookup, !eq_None_not_Some.
Qed.

Lemma agree_except_absent pid q st st' :
  agree_except q st st' → q ≠ pid → absent pid st → absent pid st'.
Proof.
  intros (_ & _ & H) Hq. unfold absent. by destruct (H pid) as [-> ->].
Qed.

Lemma remove_each_absent {V} (m : gmap string V) pid st :
  absent pid st → absent pid (final (remove_each m st)).
Proof.
  intros [Hw Hb].
  destruct (remove_each_spec m st) as (st1 & -> & _ & _ & Hk). simpl.
  unfold absent. destruct (Hk pid) as [-> ->]. by destruct (removed m st pid).
Qed.

(** What the handlers for [pid] do while [pid] is in neither map. *)
Lemma absent_handlers pid st :
  absent pid st →
  (∀ meta_window, on_size_changed pid meta_window st = Normal st)
  ∧ on_destroy pid st = Normal st
  ∧ (∀ meta_window,
       blurs (policy (prefs st) meta_window) = false →
       on_notify pid meta_window st = Normal st)
  ∧ (∀ meta_window,
       get_compositor_private meta_window = None →
       final (on_notify pid meta_window st) = st).
Proof.
  intros [Hw Hb].
  assert (has (blur_actor_map st) pid = false) as Hh.
  { apply has_unbound. rewrite bound_lookup, Hb. by intros []. }
  split; [|split; [|split]].
  - intros w. unfold on_size_changed. by rewrite Hb.
  - unfold on_destroy. rewrite Hh. cbn [and_then].
    rewrite delete_id by done. by rewrite set_maps_id.
  - intros w Hd. unfold on_notify. rewrite check_blur_policy.
    destruct (policy _ w) as [b s|]; simpl in Hd; [|by rewrite Hh].
    unfold update_blur. by rewrite Hb, Hd.
  - intros w Ha. unfold on_notify. rewrite Ha, check_blur_policy.
    destruct (policy _ w) as [b s|]; [|by rewrite Hh].
    unfold update_blur. rewrite Hb. by destruct (strict_eq s _).
Qed.

Lemma handle_keeps_absent pid e st :
  ¬ draws pid e → absent pid st → absent pid (final (handle e st)).
Proof.
  destruct e as [w q|q|q w|q w|q a|ws|s|b| |g|p]; simpl; intros Hd Ha.
  - eapply agree_except_absent; [apply on_window_created_agree|done..].
  - destruct (decide (q = pid)) as [->|Hq].
    + by rewrite (proj1 (proj2 (absent_handlers pid st Ha))).
    + eapply agree_except_absent; [apply on_destroy_agree|done..].
  - eapply agree_except_absent; [apply check_blur_agree|done..].
  - destruct (decide (q = pid)) as [->|Hq].
    + by rewrite (proj1 (absent_handlers pid st Ha)).
    + eapply agree_except_absent; [apply on_size_changed_agree|done..].
  - destruct (decide (q = pid)) as [->|Hq].
    + unfold on_notify_visible. by rewrite (proj2 Ha).
    + eapply agree_except_absent; [apply on_notify_visible_agree|done..].
  - unfold update_all_windows. rewrite and_then_final.
    pose proof (remove_each_absent (window_map st) pid st Ha) as H1.
    destruct (remove_each_spec (window_map st) st) as (st1 & Hr & _).
    rewrite Hr in *. simpl in H1. unfold absent.
    destruct (track_workspaces_lookup pid ws st1 Hd) as [-> ->]. exact H1.
  - destruct Ha as [Hw Hb]. unfold absent. state_simpl.
    by rewrite lookup_fmap, Hb.
  - destruct Ha as [Hw Hb]. unfold absent. state_simpl.
    by rewrite lookup_fmap, Hb.
  - by apply remove_each_absent.
  - done.
  - done.
Qed.

Lemma run_keeps_absent pid events st :
  Forall (λ e, ¬ draws pid e) events →
  absent pid st → absent pid (run events st).
Proof.
  intros Hall. revert st.
  induction Hall as [|e events He _ IH]; intros st Ha; simpl; [done|].
  by apply IH, handle_keeps_absent.
Qed.

Lemma on_destroy_normal pid st :
  on_destroy pid st = Normal (final (on_destroy pid st)).
Proof.
  unfold on_destroy. destruct (has _ pid); [|done].
  by rewrite remove_blur_normal.
Qed.

Lemma on_destroy_absent pid st :
  is_Some (window_group st) → (bound pid st → tracked pid st) →
  absent pid (final (on_destroy pid st)).
Proof.
  intros Hg Ht. unfold on_destroy. destruct (has _ pid) eqn:Hh.
  - rewrite remove_blur_normal. cbn [and_then final].
    pose proof (remove_blur_unbinds pid st Hg Ht) as Hb.
    rewrite bound_lookup, <- eq_None_not_Some in Hb.
    split; state_simpl; [apply lookup_delete_eq | done].
  - apply has_unbound in Hh.
    rewrite bound_lookup, <- eq_None_not_Some in Hh.
    split; state_simpl; [apply lookup_delete_eq | done].
Qed.

(** ** Every binding tracked: an invariant but for one case *)

Lemma init_tracked p g : bindings_tracked (init p g).
Proof. unfold bindings_tracked. simpl. by rewrite dom_empty_L. Qed.

Lemma update_all_windows_tracked workspaces st :
  bindings_tracked st →
  bindings_tracked (final (update_all_windows workspaces st)).
Proof.
  intros Hall. unfold update_all_windows. rewrite and_then_final.
  pose proof (remove_each_tracked (window_map st) st Hall) as H1.
  destruct (remove_each _ st) as [st1|st1]; simpl in H1; [|done].
  by apply track_workspaces_tracked.
Qed.

(** Each event keeps every binding tracked, except a destruction that
    is handled while the window group is null. *)
Lemma handle_tracked e st :
  is_Some (window_group st) ∨ (∀ pid, e ≠ Destroy pid) →
  bindings_tracked st → bindings_tracked (final (handle e st)).
Proof.
  intros Hg Hall.
  destruct e as [w q|q|q w|q w|q a|ws|s|b| |g|p]; simpl.
  - destruct w; [by apply track_new_tracked | done].
  - destruct Hg as [Hg|Hg]; [|by destruct (Hg q)].
    assert (bound q st → tracked q st) as Hq
      by by apply bindings_tracked_lookup.
    eapply agree_except_tracked_bindings; [apply on_destroy_agree| |done].
    intros Hb.
    by destruct (proj1 (absent_not_bound q _) (on_destroy_absent q st Hg Hq)).
  - eapply agree_except_tracked_bindings; [apply check_blur_agree| |done].
    apply check_blur_tracks. by apply bindings_tracked_lookup.
  - unfold bindings_tracked.
    by destruct (on_size_changed_keys q w st) as [-> ->].
  - unfold bindings_tracked.
    by destruct (on_notify_visible_keys q a st) as [-> ->].
  - by apply update_all_windows_tracked.
  - unfold bindings_tracked. state_simpl. by rewrite dom_fmap_L.
  - unfold bindings_tracked. state_simpl. by rewrite dom_fmap_L.
  - by apply remove_each_tracked.
  - done.
  - done.
Qed.

(** ** Every window entry bound: an invariant *)

Lemma windows_bound_lookup st :
  windows_bound st ↔ ∀ k, tracked k st → bound k st.
Proof. unfold windows_bound, bound, tracked. set_unfold. done. Qed.

Lemma agree_except_windows_bound pid st st' :
  agree_except pid st st' → (tracked pid st' → bound pid st') →
  windows_bound st → windows_bound st'.
Proof.
  rewrite !windows_bound_lookup. intros Hagree Hpid Hall k.
  destruct (decide (k = pid)) as [->|Hk]; [done|].
  rewrite (agree_except_bound k pid st st'), (agree_except_tracked k pid st st')
    by done.
  apply Hall.
Qed.

Lemma remove_blur_binds pid st :
  (tracked pid st → bound pid st) →
  tracked pid (final (remove_blur pid st)) →
  bound pid (final (remove_blur pid st)).
Proof.
  intros Ht. unfold remove_blur.
  destruct (window_group st); [|done].
  destruct (window_map st !! pid) eqn:Hw; [|done].
  destruct (blur_actor_map st !! pid) eqn:Hb;
    rewrite tracked_lookup; state_simpl; rewrite lookup_delete_eq;
    by intros [].
Qed.

Lemma check_blur_binds pid wa meta_window st :
  (tracked pid st → bound pid st) →
  tracked pid (final (check_blur pid wa meta_window st)) →
  bound pid (final (check_blur pid wa meta_window st)).
Proof.
  intros Ht. rewrite check_blur_policy.
  destruct (policy _ _) as [b s|].
  - unfold update_blur, create_blur_effect.
    destruct (blur_actor_map st !! pid) as [old|] eqn:Hb;
      destruct (strict_eq s (of_Z 0)); simpl.
    + by apply remove_blur_binds.
    + intros _. rewrite bound_lookup. state_simpl.
      rewrite lookup_insert_eq. eauto.
    + done.
    + destruct wa; [|done]. intros _. rewrite bound_lookup. state_simpl.
      rewrite lookup_insert_eq. eauto.
  - destruct (has _ pid); [by apply remove_blur_binds | done].
Qed.

Lemma track_windows_windows_bound windows st :
  windows_bound st → windows_bound (final (track_windows windows st)).
Proof.
  revert st. induction windows as [|[w q] windows IH]; intros st Hall; [done|].
  cbn [track_windows]. rewrite and_then_final.
  assert (windows_bound
    (final (track_new q (get_compositor_private w) w st))) as H1.
  { unfold track_new. destruct (get_compositor_private w); [|done].
    eapply agree_except_windows_bound; [apply check_blur_agree| |done].
    apply check_blur_binds. by apply windows_bound_lookup. }
  destruct (track_new q _ w st); simpl in H1; [by apply IH | done].
Qed.

Lemma track_workspaces_windows_bound workspaces st :
  windows_bound st →
  windows_bound (final (track_workspaces workspaces st)).
Proof.
  revert st.
  induction workspaces as [|windows workspaces IH]; intros st Hall; [done|].
  cbn [track_workspaces]. rewrite and_then_final.
  pose proof (track_windows_windows_bound windows st Hall) as H1.
  destruct (track_windows windows st); simpl in H1; [by apply IH | done].
Qed.

Lemma remove_each_windows_bound {V} (m : gmap string V) st :
  windows_bound st → windows_bound (final (remove_each m st)).
Proof.
  rewrite !windows_bound_lookup. intros Hall k.
  destruct (remove_each_spec m st) as (st1 & -> & _ & _ & Hk). simpl.
  rewrite bound_lookup, tracked_lookup. destruct (Hk k) as [-> ->].
  destruct (removed m st k); [done|].
  rewrite <- bound_lookup, <- tracked_lookup. apply Hall.
Qed.

Lemma on_destroy_untracked pid st :
  ¬ tracked pid (final (on_destroy pid st)).
Proof.
  unfold on_destroy.
  destruct (has _ pid); [rewrite remove_blur_normal|];
    cbn [and_then final]; rewrite tracked_lookup; state_simpl;
    rewrite lookup_delete_eq; by intros [].
Qed.

Lemma handle_windows_bound e st :
  windows_bound st → windows_bound (final (handle e st)).
Proof.
  intros Hall.
  destruct e as [w q|q|q w|q w|q a|ws|s|b| |g|p]; simpl.
  - destruct w as [w|]; [|done].
    apply (track_windows_windows_bound [(w, q)] st) in Hall.
    cbn [track_windows] in Hall. rewrite and_then_final in Hall.
    simpl. by destruct (track_new q _ w st).
  - eapply agree_except_windows_bound; [apply on_destroy_agree| |done].
    intros Ht. by apply on_destroy_untracked in Ht.
  - eapply agree_except_windows_bound; [apply check_blur_agree| |done].
    apply check_blur_binds. by apply windows_bound_lookup.
  - unfold windows_bound.
    by destruct (on_size_changed_keys q w st) as [-> ->].
  - unfold windows_bound.
    by destruct (on_notify_visible_keys q a st) as [-> ->].
  - unfold update_all_windows. rewrite and_then_final.
    pose proof (remove_each_windows_bound (window_map st) st Hall) as H1.
    destruct (remove_each _ st) as [st1|st1]; simpl in H1; [|done].
    by apply track_workspaces_windows_bound.
  - unfold windows_bound. state_simpl. by rewrite dom_fmap_L.
  - unfold windows_bound. state_simpl. by rewrite dom_fmap_L.
  - by apply remove_each_windows_bound.
  - done.
  - done.
Qed.

Lemma run_windows_bound events st :
  windows_bound st → windows_bound (run events st).
Proof.
  revert st. induction events as [|e events IH]; intros st Hall; [done|].
  simpl. by apply IH, handle_windows_bound.
Qed.

Lemma init_windows_bound p g : windows_bound (init p g).
Proof. unfold windows_bound. simpl. by rewrite dom_empty_L. Qed.

(** ** The claims on the engine *)

(** C1, as the code has it.  While the window group is there and the
    binding of [pid], if it has one, has its entry in the window map:
    after [check_blur] for [pid] on a window with its actor, and after
    any further events that are no policy evaluation or destruction for
    [pid], no rescan and no [disable], [pid] is a key of the binding map
    exactly when the decision was to enable with a sigma other than 0;
    [update_blur] with sigma 0 on a bound [pid] removes the binding.
    In any state, [update_blur] with sigma 0 on an unbound [pid] changes
    nothing, and a binding that has sigma 0 after [update_blur] was
    there before and is unchanged: [update_blur] stores no sigma 0. *)
Theorem binding_follows_decision pid (a : WindowActor) meta_window st :
  (is_Some (window_group st) → (bound pid st → tracked pid st) →
   (∀ events,
      Forall (λ e, ¬ decides pid e) events →
      bound pid (run events (final (check_blur pid (Some a) meta_window st)))
      ↔ blurs (policy (prefs st) meta_window) = true)
   ∧ (∀ b, ¬ bound pid
             (final (update_blur pid (Some a) meta_window b (of_Z 0) st))))
  ∧ (∀ b wa, ¬ bound pid st →
       update_blur pid wa meta_window b (of_Z 0) st = Normal st)
  ∧ (∀ b s wa q actor,
       blur_actor_map (final (update_blur pid wa meta_window b s st)) !! q
         = Some actor →
       strict_eq (effect_sigma actor) (of_Z 0) = true →
       blur_actor_map st !! q = Some actor).
Proof.
  split; [|split].
  - intros Hg Ht. split.
    + intros events Hall.
      by rewrite run_keeps_bound, check_blur_bound.
    + intros b. by rewrite update_blur_bound.
  - intros b wa Hb. unfold update_blur.
    rewrite bound_lookup in Hb.
    by destruct (blur_actor_map st !! pid); [destruct Hb; eauto|].
  - intros b s wa q actor. apply update_blur_stores_no_zero.
Qed.

Lemma binding_follows_decision_witness :
  bound "1"
    (run [SetBrightness (Num (1 # 2));
          SizeChanged "1" (hint_window "blur-provider=60")]
       (final (check_blur "1" (Some {| visible := true |})
                 (hint_window "blur-provider=60")
                 (init (global_prefs false [] []) (Some ())))))
  ∧ ¬ bound "1"
      (final (update_blur "1" (Some {| visible := true |})
                (hint_window "blur-provider=0") (Num (9 # 10)) (of_Z 0)
                blurred)).
Proof.
  split.
  - destruct (binding_follows_decision "1" {| visible := true |}
                (hint_window "blur-provider=60")
                (init (global_prefs false [] []) (Some ()))) as [H _].
    destruct H as [H _].
    + by eexists.
    + intros Hb. apply bound_lookup in Hb. vm_compute in Hb.
      destruct Hb as [x Hx]. discriminate Hx.
    + apply H; [|reflexivity].
      repeat constructor; simpl; [tauto | intros H'; exact H'].
  - destruct (binding_follows_decision "1" {| visible := true |}
                (hint_window "blur-provider=0") blurred) as [H _].
    destruct H as [_ H].
    + by eexists.
    + intros _. apply tracked_lookup. vm_compute. eauto.
    + apply H.
Defined.

(** C1 as stated fails.  In [shutting_down] the token 1 is bound and
    the window group is null: a policy evaluation whose decision has
    sigma 0 leaves the token bound, and so does [update_blur] with
    sigma 0.  The same happens in [orphaned], where the window group is
    there and the binding has no entry in the window map.  A decision to
    blur a window that has no actor binds nothing.  And [set_sigma] with
    0 stores sigma 0 in a binding. *)
Lemma binding_outlives_sigma_zero :
  blurs (policy (prefs shutting_down) (hint_window "blur-provider=0")) = false
  ∧ bound "1"
      (run [Notify "1" (hint_window "blur-provider=0")] shutting_down)
  ∧ bound "1"
      (final (update_blur "1" (Some {| visible := true |})
                (hint_window "blur-provider=0") (Num (9 # 10)) (of_Z 0)
                shutting_down))
  ∧ bound "1" (run [Notify "1" (hint_window "blur-provider=0")] orphaned)
  ∧ (blurs (policy (prefs blurred) (hint_window "blur-provider=60")) = true
     ∧ ¬ bound "2"
         (final (check_blur "2" None (hint_window "blur-provider=60")
                   blurred)))
  ∧ effect_sigma <$> blur_actor_map (run [SetSigma (of_Z 0)] blurred) !! "1"
    = Some (of_Z 0).
Proof.
  split; [by vm_compute|].
  split; [apply bound_lookup; vm_compute; eauto|].
  split; [apply bound_lookup; vm_compute; eauto|].
  split; [apply bound_lookup; vm_compute; eauto|].
  split; [|by vm_compute].
  split; [by vm_compute|].
  rewrite bound_lookup. vm_compute. by intros [].
Qed.

(** C2, as the code has it.  For a window whose class is not empty and
    is in the blacklist while enable-all is set, the list rule does not
    apply.  If the hint is absent or does not contain [blur-provider],
    the decision is to disable: [check_blur] creates no binding and
    calls [remove_blur] on an existing one, which removes it while the
    window group is there and the binding has its entry in the window
    map.  If the hint contains [blur-provider], the decision is to
    enable with the values that [parse_xprop] reads from the hint, and
    [check_blur] is [update_blur] with these values. *)
Theorem check_blur_blacklisted pid wa meta_window st c :
  get_wm_class meta_window = Some c → c ≠ "" →
  ENABLE_ALL (applications (prefs st)) = true →
  array_includes (BLACKLIST (applications (prefs st))) c = true →
  listed (prefs st) meta_window = false
  ∧ (hinted meta_window = false →
     policy (prefs st) meta_window = Disabled
     ∧ check_blur pid wa meta_window st
       = (if has (blur_actor_map st) pid then remove_blur pid st
          else Normal st)
     ∧ (is_Some (window_group st) → (bound pid st → tracked pid st) →
        ¬ bound pid (final (check_blur pid wa meta_window st))))
  ∧ (∀ hint,
       get_mutter_hints meta_window = Some hint →
       includes hint "blur-provider" = true →
       policy (prefs st) meta_window
         = Enabled (fst (parse_xprop (prefs st) hint))
                   (snd (parse_xprop (prefs st) hint))
       ∧ check_blur pid wa meta_window st
         = update_blur pid wa meta_window
             (fst (parse_xprop (prefs st) hint))
             (snd (parse_xprop (prefs st) hint)) st).
Proof.
  intros Hc Hne Hall Hblack.
  assert (listed (prefs st) meta_window = false) as Hl.
  { unfold listed, list_includes. rewrite Hc, Hall, Hblack. simpl.
    apply andb_false_r. }
  split; [done|]. split.
  - intros Hh.
    assert (policy (prefs st) meta_window = Disabled) as Hp.
    { unfold policy, hinted in *. rewrite Hl.
      destruct (get_mutter_hints meta_window); [by rewrite Hh | done]. }
    split; [done|]. rewrite check_blur_policy, Hp. split; [done|].
    intros Hg Ht. destruct (has _ pid) eqn:Hb.
    + by apply remove_blur_unbinds.
    + by apply has_unbound.
  - intros hint Hhint Hinc.
    assert (policy (prefs st) meta_window
            = Enabled (fst (parse_xprop (prefs st) hint))
                      (snd (parse_xprop (prefs st) hint))) as Hp.
    { unfold policy. by rewrite Hl, Hhint, Hinc. }
    split; [done|]. by rewrite check_blur_policy, Hp.
Qed.

Lemma check_blur_blacklisted_witness :
  ¬ bound "1"
      (final (check_blur "1" (Some {| visible := true |})
                (window 1 (Some "Foo") (Some "no hint"))
                (run [SetPrefs (global_prefs true [] ["Foo"])] blurred))).
Proof.
  destruct (check_blur_blacklisted "1" (Some {| visible := true |})
              (window 1 (Some "Foo") (Some "no hint"))
              (run [SetPrefs (global_prefs true [] ["Foo"])] blurred) "Foo")
    as (_ & H & _); [reflexivity | discriminate | reflexivity..|].
  destruct (H eq_refl) as (_ & _ & H').
  apply H'.
  - by eexists.
  - intros _. apply tracked_lookup. vm_compute. eauto.
Defined.

(** C2 as stated fails: with enable-all set and the class [Foo] in the
    blacklist, a window of class [Foo] whose hint is [blur-provider=60]
    is bound, with sigma 60.  And while the window group is null, the
    binding of a window of class [Foo] without hint stays. *)
Lemma blacklisted_window_blurred_by_hint :
  array_includes (BLACKLIST (applications (global_prefs true [] ["Foo"])))
    "Foo" = true
  ∧ policy (global_prefs true [] ["Foo"]) (hint_window "blur-provider=60")
    = Enabled (Num (9 # 10)) (of_Z 60)
  ∧ effect_sigma <$>
      blur_actor_map
        (final (check_blur "1" (Some {| visible := true |})
                  (hint_window "blur-provider=60")
                  (init (global_prefs true [] ["Foo"]) (Some ())))) !! "1"
    = Some (of_Z 60)
  ∧ bound "1"
      (run [SetPrefs (global_prefs true [] ["Foo"]);
            Notify "1" (window 1 (Some "Foo") None)] shutting_down).
Proof.
  split; [by vm_compute|]. split; [by vm_compute|]. split; [by vm_compute|].
  apply bound_lookup. vm_compute. eauto.
Qed.

(** C3, as the code has it.  While the window group is there and the
    binding of [pid], if it has one, has its entry in the window map,
    the destroy handler for [pid] ends normally with [pid] in neither
    map and with the entries of the other tokens as they were.  From
    then on, across events that do not draw [pid] again, [pid] stays in
    neither map; in such a state the size and destroy handlers for
    [pid] change nothing, and the property handler for [pid] changes
    nothing when its decision is not to blur or when the window has no
    actor any more. *)
Theorem destroy_removes_token pid st :
  is_Some (window_group st) → (bound pid st → tracked pid st) →
  on_destroy pid st = Normal (final (on_destroy pid st))
  ∧ ¬ tracked pid (final (on_destroy pid st))
  ∧ ¬ bound pid (final (on_destroy pid st))
  ∧ agree_except pid st (final (on_destroy pid st))
  ∧ ∀ events st',
      Forall (λ e, ¬ draws pid e) events →
      st' = run events (final (on_destroy pid st)) →
      ¬ tracked pid st' ∧ ¬ bound pid st'
      ∧ (∀ meta_window, on_size_changed pid meta_window st' = Normal st')
      ∧ on_destroy pid st' = Normal st'
      ∧ (∀ meta_window,
           blurs (policy (prefs st') meta_window) = false →
           on_notify pid meta_window st' = Normal st')
      ∧ (∀ meta_window,
           get_compositor_private meta_window = None →
           final (on_notify pid meta_window st') = st').
Proof.
  intros Hg Ht.
  pose proof (on_destroy_normal pid st) as Hn.
  pose proof (on_destroy_absent pid st Hg Ht) as Ha.
  split; [done|].
  split; [by apply absent_not_bound in Ha as []|].
  split; [by apply absent_not_bound in Ha as []|].
  split; [apply on_destroy_agree|].
  intros events st' Hall ->.
  pose proof (run_keeps_absent pid events _ Hall Ha) as Ha'.
  split; [by apply absent_not_bound in Ha' as []|].
  split; [by apply absent_not_bound in Ha' as []|].
  by apply absent_handlers.
Qed.

Lemma destroy_removes_token_witness :
  ¬ tracked "1" (final (on_destroy "1" blurred))
  ∧ ¬ bound "1"
      (run [SetSigma (of_Z 5); Destroy "2"] (final (on_destroy "1" blurred))).
Proof.
  destruct (destroy_removes_token "1" blurred) as (_ & Ht & _ & _ & H).
  - by eexists.
  - intros _. apply tracked_lookup. vm_compute. eauto.
  - split; [exact Ht|].
    refine (proj1 (proj2 (H [SetSigma (of_Z 5); Destroy "2"] _ _ eq_refl))).
    repeat constructor; simpl; tauto.
Defined.

(** C3 as stated fails.  While the window group is null the destroy
    handler leaves the token in the binding map; so it does in
    [orphaned], where the binding has no entry in the window map.  And
    with the window group there, a property handler that runs for the
    token after its destruction, on a window that asks for blur and has
    an actor, binds the token again. *)
Lemma destroy_leaves_binding :
  bound "1" (run [Destroy "1"] shutting_down)
  ∧ ¬ tracked "1" (run [Destroy "1"] shutting_down)
  ∧ bound "1" (run [Destroy "1"] orphaned)
  ∧ absent "1" (run [Destroy "1"] blurred)
  ∧ bound "1"
      (run [Destroy "1"; Notify "1" (hint_window "blur-provider=60")]
         blurred).
Proof.
  split; [apply bound_lookup; vm_compute; eauto|].
  split; [rewrite tracked_lookup; vm_compute; by intros []|].
  split; [apply bound_lookup; vm_compute; eauto|].
  split; [by vm_compute|].
  apply bound_lookup; vm_compute; eauto.
Qed.

(** C6, as the code has it.  If every binding has its entry in the
    window map when the rescan starts, then so it is when the rescan
    ends.  If moreover the window group is there, the first loop ends
    with both maps empty, and every key that either map has after the
    rescan is a token drawn in the rescan. *)
Theorem update_all_windows_no_orphan workspaces st :
  bindings_tracked st →
  bindings_tracked (final (update_all_windows workspaces st))
  ∧ (is_Some (window_group st) →
     (∃ st1,
        remove_each (window_map st) st = Normal st1
        ∧ window_map st1 = ∅ ∧ blur_actor_map st1 = ∅
        ∧ update_all_windows workspaces st = track_workspaces workspaces st1)
     ∧ ∀ k,
         (bound k (final (update_all_windows workspaces st)) →
          k ∈ tokens workspaces)
         ∧ (tracked k (final (update_all_windows workspaces st)) →
            k ∈ tokens workspaces)).
Proof.
  intros Hall. split; [by apply update_all_windows_tracked|].
  intros Hg.
  destruct (remove_each_empties st Hg Hall) as (st1 & Hr & Hw & Hb).
  split.
  - exists st1. unfold update_all_windows. by rewrite Hr.
  - intros k. unfold update_all_windows. rewrite Hr. cbn [and_then].
    rewrite bound_lookup, tracked_lookup.
    destruct (decide (k ∈ tokens workspaces)) as [|Hk]; [done|].
    destruct (track_workspaces_lookup k workspaces st1 Hk) as [-> ->].
    rewrite Hw, Hb, lookup_empty. split; by intros [].
Qed.

Lemma update_all_windows_no_orphan_witness :
  bindings_tracked
    (final (update_all_windows
              [[(hint_window "blur-provider=60", "2")]; []] blurred))
  ∧ ¬ bound "1"
      (final (update_all_windows
                [[(hint_window "blur-provider=60", "2")]; []] blurred)).
Proof.
  assert (bindings_tracked blurred) as Hall.
  { apply (handle_tracked
             (WindowCreated (Some (hint_window "blur-provider=60")) "1")
             (init (global_prefs false [] []) (Some ()))).
    - left. by eexists.
    - apply init_tracked. }
  destruct (update_all_windows_no_orphan
              [[(hint_window "blur-provider=60", "2")]; []] blurred Hall)
    as [Ht H].
  split; [exact Ht|].
  destruct H as [_ H]; [by eexists|].
  intros Hb. apply (H "1") in Hb. vm_compute in Hb.
  apply list_elem_of_singleton in Hb. discriminate Hb.
Defined.

(** C6 as stated fails.  After a destruction handled while the window
    group is null, the token is in the binding map and not in the window
    map, and a rescan leaves it so.  And while the window group is null,
    the rescan removes no binding. *)
Lemma rescan_leaves_orphan :
  bound "1" (run [Destroy "1"; UpdateAllWindows []] shutting_down)
  ∧ ¬ tracked "1" (run [Destroy "1"; UpdateAllWindows []] shutting_down)
  ∧ ¬ bindings_tracked
        (run [Destroy "1"; UpdateAllWindows []] shutting_down)
  ∧ bound "1" (run [UpdateAllWindows []] shutting_down).
Proof.
  assert (bound "1" (run [Destroy "1"; UpdateAllWindows []] shutting_down))
    as Hb by (apply bound_lookup; vm_compute; eauto).
  assert (¬ tracked "1"
            (run [Destroy "1"; UpdateAllWindows []] shutting_down))
    as Ht by (rewrite tracked_lookup; vm_compute; by intros []).
  split; [done|]. split; [done|]. split.
  - rewrite bindings_tracked_lookup. intros Hall. by apply Ht, Hall.
  - apply bound_lookup; vm_compute; eauto.
Qed.

(** C9. For a token that is in neither map, [remove_blur] ends normally
    and returns the state it was given.  In a state that the component
    reaches from its initial state no token is in the window map without
    being in the binding map, so there the same holds of every token
    that is not bound.  Removing twice is the same as removing once,
    whatever the state. *)
Theorem remove_blur_unbound_noop pid st :
  (¬ tracked pid st → ¬ bound pid st → remove_blur pid st = Normal st)
  ∧ (∀ events p g,
       st = run events (init p g) → ¬ bound pid st →
       remove_blur pid st = Normal st)
  ∧ and_then (remove_blur pid st) (remove_blur pid) = remove_blur pid st.
Proof.
  assert (¬ tracked pid st → remove_blur pid st = Normal st) as Hnoop.
  { intros Hw. apply remove_blur_untracked.
    rewrite tracked_lookup in Hw. by apply eq_None_not_Some. }
  split; [auto|]. split.
  - intros events p g -> Hb. apply Hnoop. intros Ht. apply Hb.
    by apply (proj1 (windows_bound_lookup _)
                (run_windows_bound events _ (init_windows_bound p g))).
  - destruct (window_map st !! pid) as [w|] eqn:Hw.
    + destruct (window_group st) as [g|] eqn:Hg.
      * rewrite (remove_blur_tracked pid st) by eauto. simpl.
        apply remove_blur_untracked. simpl. apply lookup_delete_eq.
      * rewrite (remove_blur_unavailable pid st) by done. simpl.
        by apply remove_blur_unavailable.
    + rewrite (remove_blur_untracked pid st) by done. simpl.
      by apply remove_blur_untracked.
Qed.

Lemma remove_blur_unbound_noop_witness :
  remove_blur "7" blurred = Normal blurred
  ∧ remove_blur "1" (run [Destroy "1"] blurred)
    = Normal (run [Destroy "1"] blurred).
Proof.
  split.
  - apply (proj1 (remove_blur_unbound_noop "7" blurred)).
    + rewrite tracked_lookup. vm_compute. by intros [].
    + rewrite bound_lookup. vm_compute. by intros [].
  - apply (proj1 (proj2 (remove_blur_unbound_noop "1"
                           (run [Destroy "1"] blurred)))
             [WindowCreated (Some (hint_window "blur-provider=60")) "1";
              Destroy "1"]
             (global_prefs false [] []) (Some ())).
    + reflexivity.
    + rewrite bound_lookup. vm_compute. by intros [].
Defined.

(** C10. While [window_group] is null, [remove_blur] returns at once
    with both maps as they were; the destroy handler then still deletes
    the token from the window map, and a token that was bound stays in
    the binding map: the key sets of the two maps differ. *)
Theorem remove_blur_without_window_group pid st :
  window_group st = None →
  remove_blur pid st = Normal st
  ∧ on_destroy pid st =
      Normal (set_maps st (delete pid (window_map st)) (blur_actor_map st))
  ∧ (bound pid st →
     bound pid (final (on_destroy pid st))
     ∧ ¬ tracked pid (final (on_destroy pid st))
     ∧ dom (blur_actor_map (final (on_destroy pid st)))
       ≠ dom (window_map (final (on_destroy pid st)))).
Proof.
  intros Hg.
  assert (on_destroy pid st =
    Normal (set_maps st (delete pid (window_map st)) (blur_actor_map st)))
    as Hd.
  { unfold on_destroy. rewrite remove_blur_unavailable by done.
    by destruct (has _ pid). }
  split; [by apply remove_blur_unavailable|]. split; [done|].
  intros Hb. rewrite Hd. unfold bound, tracked in *. state_simpl.
  rewrite dom_delete_L. split; [done|].
  split; [rewrite elem_of_difference, elem_of_singleton; tauto|].
  intros Heq. rewrite Heq in Hb. apply elem_of_difference in Hb as [_ Hb].
  by apply Hb, elem_of_singleton.
Qed.

Lemma remove_blur_without_window_group_witness :
  bound "1"
    (run [WindowCreated (Some (window 1 (Some "Foo") None)) "1";
          WindowGroup None; Destroy "1"]
       (init (global_prefs true [] []) (Some ())))
  ∧ ¬ tracked "1"
    (run [WindowCreated (Some (window 1 (Some "Foo") None)) "1";
          WindowGroup None; Destroy "1"]
       (init (global_prefs true [] []) (Some ()))).
Proof.
  pose proof (remove_blur_without_window_group "1"
    (run [WindowCreated (Some (window 1 (Some "Foo") None)) "1";
          WindowGroup None]
       (init (global_prefs true [] []) (Some ()))) eq_refl) as (_ & _ & H).
  assert (Hb : bound "1"
    (run [WindowCreated (Some (window 1 (Some "Foo") None)) "1";
          WindowGroup None]
       (init (global_prefs true [] []) (Some ())))).
  { apply bound_lookup. vm_compute. eauto. }
  exact (conj (proj1 (H Hb)) (proj1 (proj2 (H Hb)))).
Defined.

(** ** Global propagation *)

(** C7. [set_sigma v] ends normally; after it every bound effect has
    sigma [v] and is otherwise as it was, whatever its value before;
    the window map, the keys of the binding map, the preferences and the
    window group are unchanged.  The same holds of [set_brightness] and
    the brightness. *)
Theorem set_sigma_set_brightness_frame (v : number) st :
  (set_sigma v st = Normal (final (set_sigma v st))
   ∧ (∀ pid a, blur_actor_map st !! pid = Some a →
        blur_actor_map (final (set_sigma v st)) !! pid =
          Some {| actor_x := actor_x a; actor_y := actor_y a;
                  width_offset := width_offset a;
                  height_offset := height_offset a;
                  effect_sigma := v;
                  effect_brightness := effect_brightness a;
                  shown := shown a;
                  blur_provider_pid := blur_provider_pid a |})
   ∧ dom (blur_actor_map (final (set_sigma v st))) = dom (blur_actor_map st)
   ∧ window_map (final (set_sigma v st)) = window_map st
   ∧ prefs (final (set_sigma v st)) = prefs st
   ∧ window_group (final (set_sigma v st)) = window_group st)
  ∧ (set_brightness v st = Normal (final (set_brightness v st))
     ∧ (∀ pid a, blur_actor_map st !! pid = Some a →
          blur_actor_map (final (set_brightness v st)) !! pid =
            Some {| actor_x := actor_x a; actor_y := actor_y a;
                    width_offset := width_offset a;
                    height_offset := height_offset a;
                    effect_sigma := effect_sigma a;
                    effect_brightness := v;
                    shown := shown a;
                    blur_provider_pid := blur_provider_pid a |})
     ∧ dom (blur_actor_map (final (set_brightness v st)))
       = dom (blur_actor_map st)
     ∧ window_map (final (set_brightness v st)) = window_map st
     ∧ prefs (final (set_brightness v st)) = prefs st
     ∧ window_group (final (set_brightness v st)) = window_group st).
Proof.
  split; simpl.
  - split; [done|]. split; [|by rewrite dom_fmap_L].
    intros pid a Ha. by rewrite lookup_fmap, Ha.
  - split; [done|]. split; [|by rewrite dom_fmap_L].
    intros pid a Ha. by rewrite lookup_fmap, Ha.
Qed.

Lemma set_sigma_set_brightness_frame_witness :
  effect_sigma <$>
    blur_actor_map
      (final (set_sigma (of_Z 5)
         (run [WindowCreated (Some (window 1 (Some "Foo")
                                      (Some "blur-provider=60"))) "1"]
            (init (global_prefs false [] []) (Some ()))))) !! "1"
  = Some (of_Z 5).
Proof.
  pose proof (set_sigma_set_brightness_frame (of_Z 5)
    (run [WindowCreated (Some (window 1 (Some "Foo")
                                 (Some "blur-provider=60"))) "1"]
       (init (global_prefs false [] []) (Some ())))) as [(_ & H & _) _].
  erewrite H; [reflexivity|]. vm_compute. reflexivity.
Defined.

(** * Further properties of the engine *)

(** ** Policy evaluation *)

Lemma remove_blur_twice pid st :
  remove_blur pid (final (remove_blur pid st)) = remove_blur pid st.
Proof.
  destruct (window_map st !! pid) as [w|] eqn:Hw.
  - destruct (window_group st) as [g|] eqn:Hg.
    + rewrite (remove_blur_tracked pid st) by eauto. simpl.
      apply remove_blur_untracked. simpl. apply lookup_delete_eq.
    + rewrite (remove_blur_unavailable pid st) by done. simpl.
      by apply remove_blur_unavailable.
  - rewrite (remove_blur_untracked pid st) by done. simpl.
    by apply remove_blur_untracked.
Qed.

Lemma remove_blur_then pid st (f : state → completion) :
  and_then (remove_blur pid st) f = f (final (remove_blur pid st)).
Proof. by rewrite remove_blur_normal. Qed.

Lemma update_blur_twice pid wa meta_window b s st :
  and_then (update_blur pid wa meta_window b s st)
    (update_blur pid wa meta_window b s)
  = update_blur pid wa meta_window b s st.
Proof.
  unfold update_blur at 1 3.
  destruct (blur_actor_map st !! pid) as [old|] eqn:Hb;
    destruct (strict_eq s (of_Z 0)) eqn:Hs; cbn [negb].
  - rewrite remove_blur_then. unfold update_blur. rewrite Hs. cbn [negb].
    destruct (blur_actor_map (final (remove_blur pid st)) !! pid);
      [apply remove_blur_twice | by rewrite remove_blur_normal].
  - cbn [and_then]. unfold update_blur. state_simpl.
    rewrite lookup_insert_eq, Hs. by rewrite insert_insert_eq.
  - cbn [and_then]. unfold update_blur. by rewrite Hb, Hs.
  - unfold create_blur_effect. destruct wa as [a|]; [|done].
    cbn [and_then]. unfold update_blur. state_simpl.
    rewrite lookup_insert_eq, Hs. by rewrite insert_insert_eq.
Qed.

Lemma check_blur_prefs pid wa meta_window st :
  prefs (final (check_blur pid wa meta_window st)) = prefs st.
Proof. by destruct (check_blur_agree pid wa meta_window st) as (-> & _). Qed.

(** X4. Evaluating the policy twice in a row on the same window is the
    same as evaluating it once, in every state and however the first
    evaluation ends. *)
Theorem check_blur_twice pid wa meta_window st :
  and_then (check_blur pid wa meta_window st) (check_blur pid wa meta_window)
  = check_blur pid wa meta_window st.
Proof.
  pose proof (check_blur_prefs pid wa meta_window st) as Hp.
  destruct (check_blur pid wa meta_window st) as [st1|st1] eqn:Hc; [|done].
  cbn [and_then final] in *.
  rewrite (check_blur_policy pid wa meta_window st1), Hp.
  rewrite check_blur_policy in Hc.
  destruct (policy (prefs st) meta_window) as [b s|].
  - pose proof (update_blur_twice pid wa meta_window b s st) as H2.
    by rewrite Hc in H2.
  - destruct (has (blur_actor_map st) pid) eqn:Hh.
    + pose proof (remove_blur_twice pid st) as H2. rewrite Hc in H2.
      cbn [final] in H2. rewrite H2.
      by destruct (has (blur_actor_map st1) pid).
    + injection Hc as <-. by rewrite Hh.
Qed.

(** X5. A policy evaluation ends by a [TypeError] exactly when the token
    is not bound, the decision is to blur and the window has no actor;
    the state is then as it was. *)
Theorem check_blur_throws pid wa meta_window st :
  (check_blur pid wa meta_window st = Throw (final (check_blur pid wa meta_window st))
   ↔ wa = None ∧ ¬ bound pid st
     ∧ blurs (policy (prefs st) meta_window) = true)
  ∧ (∀ st', check_blur pid wa meta_window st = Throw st' → st' = st).
Proof.
  rewrite check_blur_policy.
  destruct (policy (prefs st) meta_window) as [b s|]; cbn [blurs].
  - unfold update_blur, create_blur_effect. rewrite bound_lookup.
    destruct (blur_actor_map st !! pid) as [old|] eqn:Hb;
      destruct (strict_eq s (of_Z 0)) eqn:Hs; cbn [negb].
    + rewrite remove_blur_normal. split; [|done].
      split; [done|]. by intros (_ & _ & ?).
    + split; [|done]. split; [done|]. intros (_ & Hn & _).
      destruct Hn. eauto.
    + split; [|done]. split; [done|]. by intros (_ & _ & ?).
    + destruct wa as [a|].
      * split; [|done]. split; [done|]. by intros (? & _).
      * split; [|by intros st' [= <-]]. split; [|done].
        intros _. split; [done|]. split; [by intros []|done].
  - split.
    + split; [|by intros (_ & _ & ?)].
      destruct (has _ pid); [by rewrite remove_blur_normal | done].
    + intros st'. destruct (has _ pid); [by rewrite remove_blur_normal|done].
Qed.

Lemma check_blur_throws_witness :
  check_blur "2" None (hint_window "blur-provider=60") blurred
  = Throw blurred.
Proof.
  destruct (check_blur_throws "2" None (hint_window "blur-provider=60")
              blurred) as [[_ H] H'].
  assert (check_blur "2" None (hint_window "blur-provider=60") blurred
          = Throw (final (check_blur "2" None
                            (hint_window "blur-provider=60") blurred)))
    as Hc.
  { apply H. split; [reflexivity|]. split; [|reflexivity].
    rewrite bound_lookup. vm_compute. by intros []. }
  rewrite (H' _ Hc) in Hc. exact Hc.
Defined.

Lemma track_new_unbound pid (a : WindowActor) meta_window st :
  blur_actor_map st !! pid = None →
  track_new pid (Some a) meta_window st =
    Normal (match new_binding (prefs st) pid meta_window a with
            | Some blur_actor =>
                set_maps st (<[pid := window_id meta_window]> (window_map st))
                  (<[pid := blur_actor]> (blur_actor_map st))
            | None => st
            end).
Proof.
  intros Hb. unfold track_new, new_binding. rewrite check_blur_policy.
  destruct (policy _ _) as [b s|].
  - unfold update_blur. rewrite Hb. by destruct (strict_eq s _).
  - unfold has. rewrite Hb. by rewrite bool_decide_eq_false_2 by by intros [].
Qed.

(** X6. Tracking a window under a token that is not bound ends normally,
    whether the window group is there or not: if the decision is to
    blur, both maps get the token, with the actor built from the
    decision, the offset of the window and the visibility of its actor;
    otherwise nothing changes. *)
Theorem track_new_fresh pid (a : WindowActor) meta_window st :
  ¬ bound pid st →
  track_new pid (Some a) meta_window st
    = Normal (final (track_new pid (Some a) meta_window st))
  ∧ (∀ b s,
       policy (prefs st) meta_window = Enabled b s →
       strict_eq s (of_Z 0) = false →
       window_map (final (track_new pid (Some a) meta_window st)) !! pid
         = Some (window_id meta_window)
       ∧ blur_actor_map (final (track_new pid (Some a) meta_window st)) !! pid
         = Some {| actor_x := Rect.x (compute_offset meta_window);
                   actor_y := Rect.y (compute_offset meta_window);
                   width_offset := Rect.width (compute_offset meta_window);
                   height_offset := Rect.height (compute_offset meta_window);
                   effect_sigma := s;
                   effect_brightness := b;
                   shown := visible a;
                   blur_provider_pid := pid |})
  ∧ (blurs (policy (prefs st) meta_window) = false →
     track_new pid (Some a) meta_window st = Normal st).
Proof.
  intros Hb. rewrite bound_lookup, <- eq_None_not_Some in Hb.
  rewrite (track_new_unbound pid a meta_window st Hb). unfold new_binding.
  split; [done|]. split.
  - intros b s -> ->. state_simpl. by rewrite !lookup_insert_eq.
  - destruct (policy _ _) as [b s|]; cbn [blurs]; [|done].
    by destruct (strict_eq s _).
Qed.

Lemma track_new_fresh_witness :
  effect_sigma <$>
    blur_actor_map
      (final (track_new "2" (Some {| visible := false |})
                (hint_window "blur-provider=70") shutting_down)) !! "2"
  = Some (of_Z 70).
Proof.
  destruct (track_new_fresh "2" {| visible := false |}
              (hint_window "blur-provider=70") shutting_down) as (_ & H & _).
  - rewrite bound_lookup. vm_compute. by intros [].
  - destruct (H (Num (9 # 10)) (of_Z 70)) as [_ ->]; reflexivity.
Defined.

(** X7. The handler of an event that belongs to one token changes
    nothing but what the two maps hold for that token: the entries of
    all other tokens, the preferences and the window group are as they
    were. *)
Theorem handler_touches_one_token e q st :
  token_of e = Some q → agree_except q st (final (handle e st)).
Proof.
  destruct e as [w q'|q'|q' w|q' w|q' a|ws|s|b| |g|p]; simpl;
    intros [= <-].
  - apply on_window_created_agree.
  - apply on_destroy_agree.
  - apply check_blur_agree.
  - apply on_size_changed_agree.
  - apply on_notify_visible_agree.
Qed.

Lemma handler_touches_one_token_witness :
  agree_except "2" blurred
    (final (handle (WindowCreated (Some (hint_window "blur-provider=5")) "2")
              blurred)).
Proof.
  apply (handler_touches_one_token
           (WindowCreated (Some (hint_window "blur-provider=5")) "2")).
  reflexivity.
Defined.

(** ** Global propagation *)

(** X8. A policy evaluation whose decision is to blur overwrites what
    [set_sigma] and [set_brightness] wrote: for the token evaluated,
    the binding is the same as if the propagation had not taken
    place. *)
Theorem check_blur_after_propagation pid wa meta_window (v : number) st :
  blurs (policy (prefs st) meta_window) = true →
  blur_actor_map
    (final (check_blur pid wa meta_window (final (set_sigma v st)))) !! pid
  = blur_actor_map (final (check_blur pid wa meta_window st)) !! pid
  ∧ blur_actor_map
      (final (check_blur pid wa meta_window (final (set_brightness v st))))
      !! pid
    = blur_actor_map (final (check_blur pid wa meta_window st)) !! pid.
Proof.
  intros Hd. unfold set_sigma, set_brightness. cbn [final].
  rewrite !check_blur_policy. state_simpl.
  destruct (policy (prefs st) meta_window) as [b s|]; cbn [blurs] in Hd;
    [|done].
  apply negb_true_iff in Hd.
  unfold update_blur, create_blur_effect. state_simpl.
  rewrite !lookup_fmap, Hd. cbn [negb].
  destruct (blur_actor_map st !! pid) as [old|] eqn:Hb;
    cbn [fmap option_fmap option_map].
  - state_simpl. by rewrite !lookup_insert_eq.
  - destruct wa as [a|]; state_simpl.
    + by rewrite !lookup_insert_eq.
    + by rewrite !lookup_fmap, Hb.
Qed.

Lemma check_blur_after_propagation_witness :
  effect_sigma <$>
    blur_actor_map
      (final (check_blur "1" (Some {| visible := true |})
                (hint_window "blur-provider=60")
                (final (set_sigma (of_Z 5) blurred)))) !! "1"
  = Some (of_Z 60).
Proof.
  rewrite (proj1 (check_blur_after_propagation "1"
                    (Some {| visible := true |})
                    (hint_window "blur-provider=60") (of_Z 5) blurred
                    eq_refl)).
  reflexivity.
Defined.

(** X9. Of two propagations of the same parameter the last one wins, and
    propagating sigma and propagating brightness commute. *)
Theorem propagation_composes (v1 v2 : number) st :
  and_then (set_sigma v1 st) (set_sigma v2) = set_sigma v2 st
  ∧ and_then (set_brightness v1 st) (set_brightness v2) = set_brightness v2 st
  ∧ and_then (set_sigma v1 st) (set_brightness v2)
    = and_then (set_brightness v2 st) (set_sigma v1).
Proof.
  unfold set_sigma, set_brightness. cbn [and_then]. state_simpl.
  rewrite <- !map_fmap_compose.
  by split; [|split].
Qed.

(** ** What the handlers keep *)

Lemma track_windows_frame windows st :
  prefs (final (track_windows windows st)) = prefs st
  ∧ window_group (final (track_windows windows st)) = window_group st.
Proof.
  revert st. induction windows as [|[w q] windows IH]; intros st; [done|].
  cbn [track_windows]. rewrite and_then_final.
  pose proof (track_new_agree q (get_compositor_private w) w st)
    as (Hp & Hg & _).
  destruct (track_new q _ w st) as [st1|st1]; simpl in *; [|done].
  destruct (IH st1) as [-> ->]. done.
Qed.

Lemma track_windows_app l1 l2 st :
  track_windows (l1 ++ l2) st = and_then (track_windows l1 st) (track_windows l2).
Proof.
  revert st. induction l1 as [|[w q] l1 IH]; intros st; [done|].
  cbn [app track_windows].
  destruct (track_new q _ w st) as [st1|st1]; simpl; [apply IH | done].
Qed.

Lemma track_workspaces_concat workspaces st :
  track_workspaces workspaces st = track_windows (concat workspaces) st.
Proof.
  revert st. induction workspaces as [|l workspaces IH]; intros st; [done|].
  cbn [concat track_workspaces]. rewrite track_windows_app.
  destruct (track_windows l st); simpl; [apply IH | done].
Qed.

Lemma handle_frame e st :
  prefs (final (handle e st))
    = match e with SetPrefs p => p | _ => prefs st end
  ∧ window_group (final (handle e st))
    = match e with WindowGroup g => g | _ => window_group st end.
Proof.
  destruct e as [w q|q|q w|q w|q a|ws|s|b| |g|p]; cbn [handle]; try done.
  - pose proof (on_window_created_agree q w st) as (Hp & Hg & _). by split.
  - pose proof (on_destroy_agree q st) as (Hp & Hg & _). by split.
  - pose proof (check_blur_agree q (get_compositor_private w) w st)
      as (Hp & Hg & _). by split.
  - pose proof (on_size_changed_agree q w st) as (Hp & Hg & _). by split.
  - pose proof (on_notify_visible_agree q a st) as (Hp & Hg & _). by split.
  - unfold update_all_windows. rewrite and_then_final.
    destruct (remove_each_spec (window_map st) st) as (st1 & -> & <- & <- & _).
    rewrite track_workspaces_concat. apply track_windows_frame.
  - unfold disable.
    by destruct (remove_each_spec (blur_actor_map st) st)
      as (st1 & -> & <- & <- & _).
Qed.

(** X10. As long as the window group is never null, the two maps have the
    same keys after every event: in every state that the component
    reaches from its initial state through events of which none makes
    the window group null. *)
Theorem maps_share_keys events p (g : unit) :
  Forall (λ e, e ≠ WindowGroup None) events →
  dom (window_map (run events (init p (Some g))))
  = dom (blur_actor_map (run events (init p (Some g)))).
Proof.
  intros Hall.
  assert (∀ st,
    is_Some (window_group st) → bindings_tracked st → windows_bound st →
    is_Some (window_group (run events st))
    ∧ bindings_tracked (run events st) ∧ windows_bound (run events st))
    as Hrun.
  { induction Hall as [|e events He _ IH]; intros st Hg Ht Hw; [done|].
    cbn [run]. apply IH.
    - rewrite (proj2 (handle_frame e st)).
      destruct e as [| | | | | | | | |[[]|]|]; first [done | by eexists].
    - apply handle_tracked; auto.
    - by apply handle_windows_bound. }
  destruct (Hrun (init p (Some g))) as (_ & Ht & Hw).
  - by eexists.
  - apply init_tracked.
  - apply init_windows_bound.
  - apply set_eq. intros k. split; [apply Hw | apply Ht].
Qed.

Lemma maps_share_keys_witness :
  dom (window_map
         (run [WindowCreated (Some (hint_window "blur-provider=60")) "1";
               SetSigma (of_Z 3); Destroy "1"]
            (init (global_prefs false [] []) (Some ()))))
  = dom (blur_actor_map
           (run [WindowCreated (Some (hint_window "blur-provider=60")) "1";
                 SetSigma (of_Z 3); Destroy "1"]
              (init (global_prefs false [] []) (Some ())))).
Proof.
  apply (maps_share_keys
           [WindowCreated (Some (hint_window "blur-provider=60")) "1";
            SetSigma (of_Z 3); Destroy "1"]).
  repeat constructor; discriminate.
Defined.

Lemma agree_except_keys_match q st st' :
  agree_except q st st' →
  (∀ a, blur_actor_map st' !! q = Some a → blur_provider_pid a = q) →
  keys_match st → keys_match st'.
Proof.
  intros (_ & _ & Hagree) Hq Hall k a.
  destruct (decide (k = q)) as [->|Hk]; [apply Hq|].
  destruct (Hagree k Hk) as [_ ->]. apply Hall.
Qed.

Lemma check_blur_key q wa meta_window st a :
  keys_match st →
  blur_actor_map (final (check_blur q wa meta_window st)) !! q = Some a →
  blur_provider_pid a = q.
Proof.
  intros Hall. rewrite check_blur_policy.
  destruct (policy _ _) as [b s|].
  - unfold update_blur, create_blur_effect.
    destruct (blur_actor_map st !! q) as [old|] eqn:Hb;
      destruct (strict_eq s (of_Z 0)); cbn [negb].
    + intros Ha%remove_blur_only_removes. by apply Hall.
    + state_simpl. rewrite lookup_insert_eq. intros [= <-]. simpl.
      by apply Hall.
    + simpl. by rewrite Hb.
    + destruct wa; state_simpl; [|by rewrite Hb].
      rewrite lookup_insert_eq. by intros [= <-].
  - destruct (has _ q); [|apply Hall].
    intros Ha%remove_blur_only_removes. by apply Hall.
Qed.

Lemma track_windows_keys_match windows st :
  keys_match st → keys_match (final (track_windows windows st)).
Proof.
  revert st. induction windows as [|[w q] windows IH]; intros st Hall; [done|].
  cbn [track_windows]. rewrite and_then_final.
  assert (keys_match (final (track_new q (get_compositor_private w) w st)))
    as H1.
  { unfold track_new. destruct (get_compositor_private w); [|done].
    eapply agree_except_keys_match; [apply check_blur_agree| |done].
    intros a. by apply check_blur_key. }
  destruct (track_new q _ w st); simpl in H1; [by apply IH | done].
Qed.

Lemma remove_each_keys_match {V} (m : gmap string V) st :
  keys_match st → keys_match (final (remove_each m st)).
Proof.
  intros Hall k a.
  destruct (remove_each_spec m st) as (st1 & -> & _ & _ & Hk). simpl.
  destruct (Hk k) as [_ ->]. destruct (removed m st k); [done|]. apply Hall.
Qed.

Lemma handle_keys_match e st :
  keys_match st → keys_match (final (handle e st)).
Proof.
  intros Hall.
  destruct e as [w q|q|q w|q w|q a|ws|s|b| |g|p]; simpl; try done.
  - destruct w as [w|]; [|done].
    apply (track_windows_keys_match [(w, q)] st) in Hall.
    cbn [track_windows] in Hall. rewrite and_then_final in Hall.
    unfold on_window_created. by destruct (track_new q _ w st).
  - eapply agree_except_keys_match; [apply on_destroy_agree| |done].
    intros a. unfold on_destroy.
    destruct (has _ q).
    + rewrite remove_blur_normal. cbn [and_then final]. state_simpl.
      intros Ha%remove_blur_only_removes. by apply Hall.
    + cbn [and_then final]. state_simpl. apply Hall.
  - eapply agree_except_keys_match; [apply check_blur_agree| |done].
    intros a. by apply check_blur_key.
  - eapply agree_except_keys_match; [apply on_size_changed_agree| |done].
    intros a. unfold on_size_changed.
    destruct (blur_actor_map st !! q) as [old|] eqn:Hb; state_simpl.
    + rewrite lookup_insert_eq. intros [= <-]. simpl. by apply Hall.
    + by rewrite Hb.
  - eapply agree_except_keys_match; [apply on_notify_visible_agree| |done].
    intros a'. unfold on_notify_visible.
    destruct (blur_actor_map st !! q) as [old|] eqn:Hb; state_simpl.
    + rewrite lookup_insert_eq. intros [= <-]. simpl. by apply Hall.
    + by rewrite Hb.
  - unfold update_all_windows. rewrite and_then_final.
    pose proof (remove_each_keys_match (window_map st) st Hall) as H1.
    destruct (remove_each _ st) as [st1|st1]; simpl in H1; [|done].
    rewrite track_workspaces_concat. by apply track_windows_keys_match.
  - intros k a. state_simpl. rewrite lookup_fmap.
    destruct (blur_actor_map st !! k) as [old|] eqn:Hb; [|done].
    intros [= <-]. simpl. by apply Hall.
  - intros k a. state_simpl. rewrite lookup_fmap.
    destruct (blur_actor_map st !! k) as [old|] eqn:Hb; [|done].
    intros [= <-]. simpl. by apply Hall.
  - by apply remove_each_keys_match.
Qed.

(** X11. In every state that the component reaches from its initial
    state, each blur actor carries as [blur_provider_pid] the token
    under which the binding map holds it. *)
Theorem binding_carries_its_token events p g k a :
  blur_actor_map (run events (init p g)) !! k = Some a →
  blur_provider_pid a = k.
Proof.
  assert (∀ st, keys_match st → keys_match (run events st)) as Hrun.
  { induction events as [|e events IH]; intros st Hall; [done|].
    cbn [run]. by apply IH, handle_keys_match. }
  apply Hrun. intros k' a'. simpl. by rewrite lookup_empty.
Qed.

Lemma binding_carries_its_token_witness :
  blur_provider_pid <$> blur_actor_map orphaned !! "1" = Some "1".
Proof.
  destruct (blur_actor_map orphaned !! "1") as [a|] eqn:Ha.
  - simpl. f_equal.
    apply (binding_carries_its_token
             [WindowCreated (Some (hint_window "blur-provider=60")) "1";
              WindowGroup None; Destroy "1"; WindowGroup (Some ())]
             (global_prefs false [] []) (Some ()) "1" a).
    exact Ha.
  - vm_compute in Ha. discriminate Ha.
Defined.



(** ** The rescan *)

(** Windows with actors, tracked in order under distinct tokens that
    are not bound: each token gets the binding of its decision, and
    what the maps hold for other tokens is as it was. *)
Lemma track_windows_unbound windows st :
  NoDup windows.*2 →
  (∀ w q, (w, q) ∈ windows → is_Some (get_compositor_private w)) →
  (∀ q, q ∈ windows.*2 → blur_actor_map st !! q = None) →
  ∃ st',
    track_windows windows st = Normal st'
    ∧ prefs st' = prefs st
    ∧ (∀ w q a, (w, q) ∈ windows → get_compositor_private w = Some a →
         blur_actor_map st' !! q = new_binding (prefs st) q w a
         ∧ (is_Some (new_binding (prefs st) q w a) →
            window_map st' !! q = Some (window_id w)))
    ∧ (∀ k, k ∉ windows.*2 →
         window_map st' !! k = window_map st !! k
         ∧ blur_actor_map st' !! k = blur_actor_map st !! k).
Proof.
  revert st. induction windows as [|[w q] windows IH]; intros st Hnd Hact Hfree.
  { exists st. split; [done|]. split; [done|]. split; [|done].
    intros w0 q0 a0 Hin. by apply elem_of_nil in Hin. }
  rewrite fmap_cons in Hnd. apply NoDup_cons in Hnd as [Hq Hnd].
  destruct (Hact w q) as [a Ha]; [left|].
  cbn [track_windows]. rewrite Ha.
  rewrite track_new_unbound by (apply Hfree; left).
  set (st1 := match new_binding (prefs st) q w a with
              | Some blur_actor => _ | None => st end).
  assert (prefs st1 = prefs st) as Hp1
    by (subst st1; by destruct (new_binding _ _ _ _)).
  assert (∀ k, k ≠ q →
    window_map st1 !! k = window_map st !! k
    ∧ blur_actor_map st1 !! k = blur_actor_map st !! k) as Hother.
  { intros k Hk. subst st1. destruct (new_binding _ _ _ _); [|done].
    state_simpl. by rewrite !lookup_insert_ne. }
  assert (blur_actor_map st1 !! q = new_binding (prefs st) q w a
          ∧ (is_Some (new_binding (prefs st) q w a) →
             window_map st1 !! q = Some (window_id w))) as Hhere.
  { subst st1. destruct (new_binding _ _ _ _).
    - state_simpl. by rewrite !lookup_insert_eq.
    - split; [apply Hfree; left | by intros []]. }
  destruct (IH st1 Hnd) as (st' & Hr & Hp & Hin & Hout).
  { intros w' q' Hin. apply (Hact w' q'). by right. }
  { intros q' Hq'. destruct (Hother q') as [_ ->]; [by intros ->|].
    apply Hfree. by right. }
  exists st'. cbn [and_then]. split; [done|]. split; [congruence|]. split.
  - intros w' q' a' Hin' Ha'. apply elem_of_cons in Hin' as [[= -> ->]|Hin'].
    + destruct (Hout q Hq) as [-> ->].
      assert (a' = a) as -> by congruence. done.
    + rewrite <- Hp1. by apply Hin.
  - intros k Hk. rewrite fmap_cons, not_elem_of_cons in Hk.
    destruct Hk as [Hkq Hk]. destruct (Hout k Hk) as [-> ->].
    by apply Hother.
Qed.

(** X13. A rescan that starts while the window group is there and every
    binding has its entry in the window map, over windows that all have
    their actor and are given distinct tokens, ends normally; after it
    each token of the rescan is bound exactly when the decision for its
    window is to blur, with the actor built from that decision, and the
    window map then holds the window under the token. *)
Theorem rescan_binds_by_policy workspaces st :
  is_Some (window_group st) → bindings_tracked st →
  NoDup (tokens workspaces) →
  (∀ w q, (w, q) ∈ concat workspaces → is_Some (get_compositor_private w)) →
  update_all_windows workspaces st
    = Normal (final (update_all_windows workspaces st))
  ∧ ∀ w q a,
      (w, q) ∈ concat workspaces → get_compositor_private w = Some a →
      blur_actor_map (final (update_all_windows workspaces st)) !! q
        = new_binding (prefs st) q w a
      ∧ (bound q (final (update_all_windows workspaces st))
         ↔ blurs (policy (prefs st) w) = true)
      ∧ (bound q (final (update_all_windows workspaces st)) →
         window_map (final (update_all_windows workspaces st)) !! q
           = Some (window_id w)).
Proof.
  intros Hg Ht Hnd Hact.
  destruct (remove_each_empties st Hg Ht) as (st1 & Hr & Hw & Hb).
  assert (prefs st1 = prefs st) as Hp.
  { destruct (remove_each_spec (window_map st) st) as (st2 & Hr2 & Hp2 & _).
    congruence. }
  destruct (track_windows_unbound (concat workspaces) st1 Hnd Hact)
    as (st' & Hr' & _ & Hin & _).
  { intros q _. by rewrite Hb. }
  unfold update_all_windows. rewrite Hr. cbn [and_then].
  rewrite track_workspaces_concat, Hr'. cbn [final]. split; [done|].
  intros w q a Hwq Ha. destruct (Hin w q a Hwq Ha) as [Hbq Hwm].
  rewrite Hp in Hbq, Hwm. rewrite bound_lookup, Hbq.
  split; [done|]. split; [|done].
  unfold new_binding. destruct (policy _ _) as [b s|]; cbn [blurs].
  - destruct (strict_eq s _); split; try done; by intros [].
  - split; [by intros [] | done].
Qed.

Lemma rescan_binds_by_policy_witness :
  bound "2"
    (final (update_all_windows
              [[(hint_window "blur-provider=60", "2")];
               [(hint_window "blur-provider=0", "3")]] blurred))
  ∧ ¬ bound "3"
    (final (update_all_windows
              [[(hint_window "blur-provider=60", "2")];
               [(hint_window "blur-provider=0", "3")]] blurred)).
Proof.
  destruct (rescan_binds_by_policy
              [[(hint_window "blur-provider=60", "2")];
               [(hint_window "blur-provider=0", "3")]] blurred) as [_ H].
  - by eexists.
  - apply (handle_tracked
             (WindowCreated (Some (hint_window "blur-provider=60")) "1")
             (init (global_prefs false [] []) (Some ())));
      [left; by eexists | apply init_tracked].
  - vm_compute. repeat constructor; rewrite ?elem_of_cons, ?elem_of_nil;
      intros H; repeat destruct H as [H|H]; try discriminate H;
      try destruct H.
  - intros w q Hin. cbn [concat app] in Hin.
    repeat (apply elem_of_cons in Hin as [[= -> ->]|Hin]);
      [by eexists.. | by apply elem_of_nil in Hin].
  - split.
    + apply (H (hint_window "blur-provider=60") "2" {| visible := true |});
        [cbn [concat app]; rewrite !elem_of_cons; tauto | reflexivity
        | reflexivity].
    + intros Hb.
      apply (H (hint_window "blur-provider=0") "3" {| visible := true |})
        in Hb; [discriminate Hb | | reflexivity].
      cbn [concat app]. rewrite !elem_of_cons. tauto.
Defined.

(** X14. [enable] on the state that the constructor leaves, over windows
    that all have their actor and are given distinct tokens, ends
    normally whether the window group is there or not; after it the
    binding map holds, for each token drawn, the binding of the decision
    for its window, and nothing else. *)
Theorem enable_binds_by_policy workspaces p g :
  NoDup (tokens workspaces) →
  (∀ w q, (w, q) ∈ concat workspaces → is_Some (get_compositor_private w)) →
  enable workspaces (init p g)
    = Normal (final (enable workspaces (init p g)))
  ∧ (∀ w q a,
       (w, q) ∈ concat workspaces → get_compositor_private w = Some a →
       blur_actor_map (final (enable workspaces (init p g))) !! q
         = new_binding p q w a
       ∧ (bound q (final (enable workspaces (init p g)))
          ↔ blurs (policy p w) = true))
  ∧ (∀ k, k ∉ tokens workspaces →
       ¬ bound k (final (enable workspaces (init p g)))
       ∧ ¬ tracked k (final (enable workspaces (init p g)))).
Proof.
  intros Hnd Hact.
  destruct (track_windows_unbound (concat workspaces) (init p g) Hnd Hact)
    as (st' & Hr' & _ & Hin & Hout); [done|].
  unfold enable, update_all_windows, remove_each. cbn [init window_map].
  rewrite map_fold_empty. cbn [and_then].
  rewrite track_workspaces_concat, Hr'. cbn [final]. split; [done|]. split.
  - intros w q a Hwq Ha. destruct (Hin w q a Hwq Ha) as [Hbq _].
    cbn [init prefs] in Hbq. rewrite bound_lookup, Hbq. split; [done|].
    unfold new_binding. destruct (policy _ _) as [b s|]; cbn [blurs].
    + destruct (strict_eq s _); split; try done; by intros [].
    + split; [by intros [] | done].
  - intros k Hk. rewrite bound_lookup, tracked_lookup.
    destruct (Hout k Hk) as [-> ->]. cbn [init window_map blur_actor_map].
    rewrite !lookup_empty. split; by intros [].
Qed.

Lemma enable_binds_by_policy_witness :
  bound "2"
    (final (enable [[(hint_window "blur-provider=60", "2")]]
              (init (global_prefs false [] []) None))).
Proof.
  destruct (enable_binds_by_policy
              [[(hint_window "blur-provider=60", "2")]]
              (global_prefs false [] []) None) as (_ & H & _).
  - apply NoDup_singleton.
  - intros w q Hin. cbn [concat app] in Hin.
    apply elem_of_cons in Hin as [[= -> ->]|Hin];
      [by eexists | by apply elem_of_nil in Hin].
  - apply (H (hint_window "blur-provider=60") "2" {| visible := true |});
      [cbn [concat app]; rewrite !elem_of_cons; tauto | reflexivity
      | reflexivity].
Defined.

Lemma track_windows_normal windows st :
  (∀ w q, (w, q) ∈ windows → is_Some (get_compositor_private w)) →
  track_windows windows st = Normal (final (track_windows windows st)).
Proof.
  revert st. induction windows as [|[w q] windows IH]; intros st Hact; [done|].
  destruct (Hact w q) as [a Ha]; [left|].
  cbn [track_windows]. rewrite Ha. unfold track_new.
  pose proof (check_blur_agree q (Some a) w st) as _.
  assert (check_blur q (Some a) w st
          = Normal (final (check_blur q (Some a) w st))) as ->.
  { rewrite check_blur_policy. destruct (policy _ _) as [b s|].
    - unfold update_blur, create_blur_effect.
      destruct (blur_actor_map st !! q), (strict_eq s _); cbn [negb];
        try done; by rewrite remove_blur_normal.
    - destruct (has _ q); [by rewrite remove_blur_normal | done]. }
  cbn [and_then]. apply IH. intros w' q' Hin. apply (Hact w' q'). by right.
Qed.

(** X15. A window without actor ends the rescan by a [TypeError]: the
    windows listed before it have been tracked, the windows listed after
    it, on this workspace and on the later ones, are not looked at. *)
Theorem rescan_stops_without_actor workspaces before w q after st :
  concat workspaces = before ++ (w, q) :: after →
  get_compositor_private w = None →
  (∀ w' q', (w', q') ∈ before → is_Some (get_compositor_private w')) →
  update_all_windows workspaces st
  = Throw (final (and_then (remove_each (window_map st) st)
                    (track_windows before))).
Proof.
  intros Hc Hw Hact. unfold update_all_windows.
  destruct (remove_each_spec (window_map st) st) as (st1 & -> & _).
  cbn [and_then]. rewrite track_workspaces_concat, Hc, track_windows_app.
  rewrite (track_windows_normal before st1 Hact). cbn [and_then final].
  cbn [track_windows]. by rewrite Hw.
Qed.

Lemma rescan_stops_without_actor_witness :
  ¬ bound "3"
    (final (update_all_windows
              [[(window 2 None None, "2")];
               [(window_without_actor, "9");
                (hint_window "blur-provider=60", "3")]]
              blurred)).
Proof.
  rewrite (rescan_stops_without_actor
             [[(window 2 None None, "2")];
              [(window_without_actor, "9");
               (hint_window "blur-provider=60", "3")]]
             [(window 2 None None, "2")] window_without_actor "9"
             [(hint_window "blur-provider=60", "3")] blurred
             eq_refl eq_refl).
  - rewrite bound_lookup. vm_compute. by intros [].
  - intros w' q' Hin. apply elem_of_cons in Hin as [[= -> ->]|Hin];
      [by eexists | by apply elem_of_nil in Hin].
Defined.

(** ** Who writes what of a blur actor *)

(** How the blur actor of a token after an event relates to the one
    before it. *)
Lemma handle_binding e pid st old new :
  (∀ workspaces, e = UpdateAllWindows workspaces → pid ∉ tokens workspaces) →
  blur_actor_map st !! pid = Some old →
  blur_actor_map (final (handle e st)) !! pid = Some new →
  new = old
  ∨ (∃ w, e = SizeChanged pid w
          ∧ parameters new = parameters old ∧ shown new = shown old
          ∧ blur_provider_pid new = blur_provider_pid old)
  ∨ (∃ a, e = NotifyVisible pid a
          ∧ parameters new = parameters old ∧ geometry new = geometry old
          ∧ blur_provider_pid new = blur_provider_pid old)
  ∨ (((∃ w, e = WindowCreated w pid) ∨ (∃ w, e = Notify pid w)
      ∨ (∃ v, e = SetSigma v) ∨ (∃ v, e = SetBrightness v))
     ∧ geometry new = geometry old ∧ shown new = shown old
     ∧ blur_provider_pid new = blur_provider_pid old).
Proof.
  intros Hws Hold.
  assert (∀ wa w,
    blur_actor_map (final (check_blur pid wa w st)) !! pid = Some new →
    new = old
    ∨ geometry new = geometry old ∧ shown new = shown old
      ∧ blur_provider_pid new = blur_provider_pid old) as Hcheck.
  { intros wa w. rewrite check_blur_policy.
    destruct (policy _ _) as [b s|].
    - unfold update_blur. rewrite Hold. destruct (strict_eq s _).
      + intros Hn%remove_blur_only_removes. left. congruence.
      + state_simpl. rewrite lookup_insert_eq. intros [= <-]. by right.
    - destruct (has _ pid); [|left; simpl in *; congruence].
      intros Hn%remove_blur_only_removes. left. congruence. }
  assert (∀ q st', q ≠ pid → agree_except q st st' →
    blur_actor_map st' !! pid = Some new → new = old) as Hother.
  { intros q st' Hq (_ & _ & Hagree). destruct (Hagree pid) as [_ ->]; [done|].
    congruence. }
  destruct e as [w q|q|q w|q w|q a|ws|s|b| |g|p]; cbn [handle].
  - destruct (decide (q = pid)) as [->|Hq];
      [|left; eapply Hother; [done|apply on_window_created_agree|done]].
    unfold on_window_created, track_new.
    destruct w as [w|]; [|left; simpl in *; congruence].
    destruct (get_compositor_private w) as [a|] eqn:Ha;
      [|left; simpl in *; congruence].
    intros [->|H]%Hcheck; [by left|]. right. right. right. eauto.
  - destruct (decide (q = pid)) as [->|Hq];
      [|left; eapply Hother; [done|apply on_destroy_agree|done]].
    unfold on_destroy. destruct (has _ pid).
    + rewrite remove_blur_normal. cbn [and_then final]. state_simpl.
      intros Hn%remove_blur_only_removes. left. congruence.
    + cbn [and_then final]. state_simpl. left. congruence.
  - destruct (decide (q = pid)) as [->|Hq];
      [|left; eapply Hother; [done|apply check_blur_agree|done]].
    unfold on_notify. intros [->|H]%Hcheck; [by left|].
    right. right. right. eauto.
  - destruct (decide (q = pid)) as [->|Hq];
      [|left; eapply Hother; [done|apply on_size_changed_agree|done]].
    unfold on_size_changed. rewrite Hold. state_simpl.
    rewrite lookup_insert_eq. intros [= <-]. right. left. by exists w.
  - destruct (decide (q = pid)) as [->|Hq];
      [|left; eapply Hother; [done|apply on_notify_visible_agree|done]].
    unfold on_notify_visible. rewrite Hold. state_simpl.
    rewrite lookup_insert_eq. intros [= <-]. right. right. left. by exists a.
  - unfold update_all_windows. rewrite and_then_final.
    destruct (remove_each_spec (window_map st) st) as (st1 & -> & _ & _ & Hk).
    destruct (track_workspaces_lookup pid ws st1 (Hws ws eq_refl)) as [_ ->].
    destruct (Hk pid) as [_ ->]. destruct (removed _ st pid); [done|].
    left. congruence.
  - unfold set_sigma. state_simpl. rewrite lookup_fmap, Hold. intros [= <-].
    right. right. right. eauto 10.
  - unfold set_brightness. state_simpl. rewrite lookup_fmap, Hold.
    intros [= <-]. right. right. right. eauto 10.
  - unfold disable.
    destruct (remove_each_spec (blur_actor_map st) st)
      as (st1 & -> & _ & _ & Hk). cbn [final].
    destruct (Hk pid) as [_ ->]. destruct (removed _ st pid); [done|].
    left. congruence.
  - state_simpl. left. congruence.
  - state_simpl. left. congruence.
Qed.

(** X16. While a token stays bound, and it is not drawn again by a
    rescan, the position and the constraint offsets of its blur actor
    are written by its size handler only, the visibility by its
    visibility handler only, and sigma and brightness by a policy
    evaluation for the token or a propagation only; the token that the
    actor carries is never written. *)
Theorem blur_actor_writers e pid st old new :
  (∀ workspaces, e = UpdateAllWindows workspaces → pid ∉ tokens workspaces) →
  blur_actor_map st !! pid = Some old →
  blur_actor_map (final (handle e st)) !! pid = Some new →
  ((∀ w, e ≠ SizeChanged pid w) → geometry new = geometry old)
  ∧ ((∀ a, e ≠ NotifyVisible pid a) → shown new = shown old)
  ∧ ((∀ w, e ≠ WindowCreated w pid) → (∀ w, e ≠ Notify pid w) →
     (∀ v, e ≠ SetSigma v) → (∀ v, e ≠ SetBrightness v) →
     parameters new = parameters old)
  ∧ blur_provider_pid new = blur_provider_pid old.
Proof.
  intros Hws Hold Hnew.
  destruct (handle_binding e pid st old new Hws Hold Hnew)
    as [->|[(w & -> & Hp & Hs & Hk)|[(a & -> & Hp & Hg & Hk)|(He & Hg & Hs & Hk)]]].
  - done.
  - split; [by intros H; destruct (H w)|]. done.
  - split; [done|]. split; [by intros H; destruct (H a)|]. done.
  - split; [done|]. split; [done|]. split; [|done].
    intros H1 H2 H3 H4.
    destruct He as [[w ->]|[[w ->]|[[v ->]|[v ->]]]];
      [destruct (H1 w)|destruct (H2 w)|destruct (H3 v)|destruct (H4 v)];
      done.
Qed.

Lemma blur_actor_writers_witness :
  geometry <$>
    blur_actor_map
      (final (handle (Notify "1" (window 1 (Some "Foo")
                                    (Some "blur-provider=9")))
                blurred)) !! "1"
  = geometry <$> blur_actor_map blurred !! "1".
Proof.
  destruct (blur_actor_map blurred !! "1") as [old|] eqn:Hold;
    [|vm_compute in Hold; discriminate Hold].
  destruct (blur_actor_map
              (final (handle (Notify "1" (window 1 (Some "Foo")
                                            (Some "blur-provider=9")))
                        blurred)) !! "1") as [new|] eqn:Hnew;
    [|vm_compute in Hnew; discriminate Hnew].
  simpl. f_equal.
  apply (blur_actor_writers
           (Notify "1" (window 1 (Some "Foo") (Some "blur-provider=9")))
           "1" blurred old new); [discriminate | done | done | discriminate].
Defined.

(** ** The marker of the policy and the marker of the parser *)

(** X17. [check_blur] looks for [blur-provider] in the hint, [parse_xprop]
    for [blur-provider=].  A window that the list rule does not blur
    and whose hint has the first but not the second (the bare word, or
    the word followed by a colon) is handed to [update_blur] with the
    fallback pair. *)
Theorem marker_without_equals pid wa meta_window st hint :
  listed (prefs st) meta_window = false →
  get_mutter_hints meta_window = Some hint →
  includes hint "blur-provider" = true →
  includes hint "blur-provider=" = false →
  check_blur pid wa meta_window st
  = update_blur pid wa meta_window
      (fst (fallback (prefs st))) (snd (fallback (prefs st))) st.
Proof.
  intros Hl Hh Hword Hmarker. rewrite check_blur_policy. unfold policy.
  rewrite Hl, Hh, Hword.
  by rewrite (parse_xprop_no_marker (prefs st) hint)
    by by apply after_marker_includes.
Qed.

Lemma marker_without_equals_witness :
  effect_sigma <$>
    blur_actor_map
      (final (check_blur "2" (Some {| visible := true |})
                (hint_window "blur-provider:60") blurred)) !! "2"
  = Some (of_Z 40).
Proof.
  rewrite (marker_without_equals "2" (Some {| visible := true |})
             (hint_window "blur-provider:60") blurred "blur-provider:60"
             eq_refl eq_refl eq_refl eq_refl).
  reflexivity.
Defined.

End Engine.
